(** * Neon Lane: the frame loop of [src/App.tsx], embedded and verified

    The component [App] keeps two kinds of state.  React state
    ([running], [playerLane], [score], [best]) is read through the
    constants of one render and written through setters; refs
    ([obstaclesRef], [speedRef], ...) are mutable cells shared by every
    render.  A function declared inside [App] ([loop], [draw],
    [restart]) therefore sees the refs as they are now, but the React
    values as they were in the render that created it.  The embedding
    keeps that distinction: [Render] is the tuple of values of one
    render, [Refs] the shared cells, and [loop] takes the [Closure] it
    belongs to as an argument.

    Which render's [loop] runs is decided by the source: the game-loop
    effect (lines 105-111) has an empty dependency list, so it runs once
    and schedules the first render's [loop]; [loop] reschedules itself by
    name (lines 120, 178), so the first render's [loop] stays scheduled
    until some [restart] schedules the [loop] of its own render (line
    101).  The listeners for keys and pointer are registered by effects
    with an empty dependency list too (lines 65, 82, 252) and so belong
    to the first render; the Restart button's [onClick] (line 260) is
    the [restart] of the render on screen.  The setters are called with
    updater functions (or constants), so the React state itself is
    always updated from its current value.  React is taken to render
    again after each event that changed a hook, and not otherwise.

    JavaScript numbers are modelled exactly: pixel positions, seconds and
    timestamps are rationals ([Q]); lane indices and scores are integers
    ([Z]); [best], which comes out of [parseInt], is an integer or NaN.
    A rational that is stored (in a ref or in an obstacle) is stored in
    lowest terms ([Qred]), so that a number has one representation and
    long runs can be evaluated. *)

From Stdlib Require Import ZArith QArith Qminmax Qround Lqa Lia Bool List
  Ascii String DecimalString DecimalPos.
Import ListNotations.

Local Open Scope Q_scope.

(** ** Data *)

(** [type Obstacle] (App.tsx, lines 3-9). *)
Record Obstacle : Type := mkObstacle
  { lane : Z
  ; y : Q
  ; w : Q
  ; h : Q
  ; passed : bool }.

(** A JavaScript number holding an integer or NaN (the results of
    [parseInt] and of [Math.max] over them). *)
Inductive num : Type :=
  | NaN : num
  | Int : Z -> num.

(** Constants (lines 11-20). *)
Definition CANVAS_W : Q := 360.
Definition CANVAS_H : Q := 640.
Definition LANES : Z := 3.
Definition PLAYER_R : Q := 14.
Definition PLAYER_Y : Q := CANVAS_H - 80.
Definition BASE_SPEED : Q := 140.
Definition SPEED_GROWTH : Q := 6.
Definition BASE_SPAWN : Q := 1.
Definition MIN_SPAWN : Q := 35 # 100.
Definition SPAWN_DECAY : Q := 4 # 100.

(** The values of the four [useState] hooks as one render sees them. *)
Record Render : Type := mkRender
  { running : bool
  ; playerLane : Z
  ; score : Z
  ; best : num }.

(** The [useRef] cells (lines 43-48). *)
Record Refs : Type := mkRefs
  { obstacles : list Obstacle
  ; speed : Q
  ; spawnTimer : Q
  ; spawnInterval : Q
  ; elapsed : Q
  ; dead : bool }.

(** What one call of [draw] puts on the canvas. *)
Inductive Overlay : Type := NoOverlay | GameOver | Paused.

Record Picture : Type := mkPicture
  { pic_lane : Z
  ; pic_obstacles : list Obstacle
  ; pic_score : Z
  ; pic_best : num
  ; pic_overlay : Overlay }.

(** Effects on the host, in the order they happen. *)
Inductive Effect : Type :=
  | Draw : Picture -> Effect
  | RequestFrame : Effect
  | CancelFrame : Effect
  | SetItem : string -> string -> Effect.

(** The functions [loop], [draw] and [restart] of one render: the
    render's values, and the [_last] property stored on that render's
    [loop] function object (line 125-127). *)
Record Closure : Type := mkClosure
  { env : Render
  ; last : option Q }.

(** The whole application.  [hooks] is the React state, [storage] the
    entry of [localStorage] under the key, [renders] the closures of
    the renders so far, oldest first: number 0 is the first render, the
    one the effects with an empty dependency list captured (lines 65,
    82, 111, 252), and the last one is the render on screen, whose
    [restart] the Restart button calls (line 260).  [live] is the number
    of the render whose [loop] is scheduled with
    [requestAnimationFrame]. *)
Record World : Type := mkWorld
  { hooks : Render
  ; refs : Refs
  ; storage : option string
  ; canvas : bool
  ; renders : list Closure
  ; live : nat
  ; out : list Effect }.

(** ** Pure helpers *)

(** [laneX] (lines 22-25). *)
Definition laneX (l : Z) : Q :=
  let laneWidth := CANVAS_W / inject_Z LANES in
  laneWidth * inject_Z l + laneWidth / 2.

(** [clamp] (lines 27-29), at the integer lane indices it is used on. *)
Definition clamp (n min max : Z) : Z := Z.max min (Z.min max n).

(** [Math.max] on two numbers one of which may be NaN. *)
Definition Math_max (a : num) (b : Z) : num :=
  match a with
  | NaN => NaN
  | Int z => Int (Z.max z b)
  end.

Definition Qlt_bool (a b : Q) : bool := negb (Qle_bool b a).

(** *** Strings: [parseInt] and [String]

    [parseInt(v)] with no radix, on strings of ASCII characters: leading
    white space is skipped, a sign is read, a [0x]/[0X] prefix selects
    radix 16, and the longest prefix of digits is converted; no digit at
    all gives NaN. *)
Definition isWhite (c : ascii) : bool :=
  match N_of_ascii c with
  | 9%N | 10%N | 11%N | 12%N | 13%N | 32%N => true
  | _ => false
  end.

Fixpoint trimStart (s : string) : string :=
  match s with
  | String c s' => if isWhite c then trimStart s' else s
  | EmptyString => s
  end.

Definition digitVal (c : ascii) : option Z :=
  let n := Z.of_N (N_of_ascii c) in
  if (48 <=? n)%Z && (n <=? 57)%Z then Some (n - 48)%Z
  else if (97 <=? n)%Z && (n <=? 122)%Z then Some (n - 87)%Z
  else if (65 <=? n)%Z && (n <=? 90)%Z then Some (n - 55)%Z
  else None.

Fixpoint digits (R : Z) (s : string) (acc : option Z) : option Z :=
  match s with
  | EmptyString => acc
  | String c s' =>
      match digitVal c with
      | Some d =>
          if (d <? R)%Z
          then digits R s' (Some (R * match acc with Some a => a | None => 0 end + d)%Z)
          else acc
      | None => acc
      end
  end.

Definition parseInt (s : string) : num :=
  let s1 := trimStart s in
  let '(sign, s2) :=
    match s1 with
    | String "-" r => ((-1)%Z, r)
    | String "+" r => (1%Z, r)
    | _ => (1%Z, s1)
    end in
  let '(R, s3) :=
    match s2 with
    | String "0" (String "x" r) => (16%Z, r)
    | String "0" (String "X" r) => (16%Z, r)
    | _ => (10%Z, s2)
    end in
  match digits R s3 None with
  | None => NaN
  | Some m => Int (sign * m)
  end.

(** [String(n)] for an integer or NaN: the decimal digits, with a
    minus sign for a negative one.  This is what JavaScript prints for
    an integer that a number holds exactly and that is below 10^21 in
    absolute value; statements about the digits written are made for
    such integers (see [safeNum]). *)
Definition String_of (n : num) : string :=
  match n with
  | NaN => "NaN"%string
  | Int z => NilZero.string_of_int (Z.to_int z)
  end.

Definition BEST_KEY : string := "neonlane_best".

(** The initialiser of the [best] hook (lines 37-40):
    [v ? parseInt(v) : 0]; [null] and the empty string are falsy. *)
Definition initBest (v : option string) : num :=
  match v with
  | None => Int 0
  | Some EmptyString => Int 0
  | Some s => parseInt s
  end.

(** ** State at mount *)

Definition initRender (v : option string) : Render :=
  {| running := true; playerLane := 1%Z; score := 0%Z; best := initBest v |}.

Definition initRefs : Refs :=
  {| obstacles := []; speed := BASE_SPEED; spawnTimer := 0;
     spawnInterval := BASE_SPAWN; elapsed := 0; dead := false |}.

(** After the first render and its effects: the game-loop effect
    (lines 105-111) has scheduled the first render's [loop]. *)
Definition initWorld (v : option string) : World :=
  {| hooks := initRender v; refs := initRefs; storage := v; canvas := true;
     renders := [{| env := initRender v; last := None |}]; live := 0%nat;
     out := [RequestFrame] |}.

(** ** Setters and small updates *)

Definition setRunning (f : bool -> bool) (W : World) : World :=
  let k := hooks W in
  {| hooks := {| running := f (running k); playerLane := playerLane k;
                 score := score k; best := best k |};
     refs := refs W; storage := storage W; canvas := canvas W;
     renders := renders W; live := live W; out := out W |}.

Definition setPlayerLane (f : Z -> Z) (W : World) : World :=
  let k := hooks W in
  {| hooks := {| running := running k; playerLane := f (playerLane k);
                 score := score k; best := best k |};
     refs := refs W; storage := storage W; canvas := canvas W;
     renders := renders W; live := live W; out := out W |}.

Definition setScore (f : Z -> Z) (W : World) : World :=
  let k := hooks W in
  {| hooks := {| running := running k; playerLane := playerLane k;
                 score := f (score k); best := best k |};
     refs := refs W; storage := storage W; canvas := canvas W;
     renders := renders W; live := live W; out := out W |}.

Definition setBest (b : num) (W : World) : World :=
  let k := hooks W in
  {| hooks := {| running := running k; playerLane := playerLane k;
                 score := score k; best := b |};
     refs := refs W; storage := storage W; canvas := canvas W;
     renders := renders W; live := live W; out := out W |}.

Definition setRefs (r : Refs) (W : World) : World :=
  {| hooks := hooks W; refs := r; storage := storage W; canvas := canvas W;
     renders := renders W; live := live W; out := out W |}.

Definition emit (e : Effect) (W : World) : World :=
  {| hooks := hooks W; refs := refs W; storage := storage W; canvas := canvas W;
     renders := renders W; live := live W; out := out W ++ [e] |}.

(** [localStorage.setItem(key, value)]: the entry changes and the call
    is recorded. *)
Definition setItem (v : string) (W : World) : World :=
  emit (SetItem BEST_KEY v)
    {| hooks := hooks W; refs := refs W; storage := Some v; canvas := canvas W;
       renders := renders W; live := live W; out := out W |}.

(** ** The functions of one render *)

(** [draw] (lines 181-243), reduced to what it shows: the lane that is
    highlighted and holds the marker, the obstacles, the two numbers of
    the HUD and the overlay.  [playerLane], [score], [best] and
    [running] are the render's; the obstacles and the dead flag are
    read from the refs. *)
Definition draw (c : Closure) (W : World) : World :=
  emit (Draw {| pic_lane := playerLane (env c);
                pic_obstacles := obstacles (refs W);
                pic_score := score (env c);
                pic_best := best (env c);
                pic_overlay :=
                  if dead (refs W) then GameOver
                  else if negb (running (env c)) then Paused
                  else NoOverlay |}) W.

(** [spawnObstacle] (lines 84-89); [r1] and [r2] are the two values
    [Math.random()] returns. *)
Definition newObstacle (r1 r2 : Q) : Obstacle :=
  let lane := Qfloor (r1 * inject_Z LANES) in
  let w := Qred (CANVAS_W / inject_Z LANES * (6 # 10)) in
  let h := Qred (26 + r2 * 20) in
  {| lane := lane; y := Qred (- h); w := w; h := h; passed := false |}.

Definition spawnObstacle (r1 r2 : Q) (r : Refs) : Refs :=
  {| obstacles := obstacles r ++ [newObstacle r1 r2];
     speed := speed r; spawnTimer := spawnTimer r;
     spawnInterval := spawnInterval r; elapsed := elapsed r; dead := dead r |}.

(** [restart] (lines 91-102) of the render whose closure is [c]: the
    refs are reset, the two setters are called, the pending frame is
    cancelled and the [loop] of render number [i], the render this
    [restart] belongs to, is scheduled. *)
Definition restart (i : nat) (W : World) : World :=
  let W1 := setRefs {| obstacles := []; speed := BASE_SPEED;
                       spawnTimer := 0; spawnInterval := BASE_SPAWN;
                       elapsed := 0; dead := false |} W in
  let W2 := setScore (fun _ => 0%Z) W1 in
  let W3 := setRunning (fun _ => true) W2 in
  let W4 := emit CancelFrame W3 in
  let W5 := emit RequestFrame W4 in
  {| hooks := hooks W5; refs := refs W5; storage := storage W5;
     canvas := canvas W5; renders := renders W5; live := i; out := out W5 |}.

(** The body of [forEach] (lines 145-153), threaded through the list:
    each obstacle moves by [speed * dt]; one that has not been counted
    and whose lower edge is at or below the player's line is flagged,
    and [setScore (s => s + 1)] is called for it.  The result is the
    updated list and the number of such calls. *)
Fixpoint updateObstacles (speed dt : Q) (os : list Obstacle) : list Obstacle * Z :=
  match os with
  | [] => ([], 0%Z)
  | o :: rest =>
      let y' := Qred (y o + speed * dt) in
      let '(rest', n) := updateObstacles speed dt rest in
      if negb (passed o) && Qle_bool PLAYER_Y (y' + h o)
      then ({| lane := lane o; y := y'; w := w o; h := h o; passed := true |} :: rest',
            (n + 1)%Z)
      else ({| lane := lane o; y := y'; w := w o; h := h o; passed := passed o |} :: rest',
            n)
  end.

(** The filter of line 156. *)
Definition onScreen (o : Obstacle) : bool := Qlt_bool (y o) (CANVAS_H + h o).

(** The test of lines 160-166 for one obstacle. *)
Definition overlap (o : Obstacle) : bool :=
  let playerTop := PLAYER_Y - PLAYER_R in
  let playerBottom := PLAYER_Y + PLAYER_R in
  let obstacleTop := y o in
  let obstacleBottom := y o + h o in
  negb (Qlt_bool playerBottom obstacleTop || Qlt_bool obstacleBottom playerTop).

Definition hits (pl : Z) (o : Obstacle) : bool :=
  (lane o =? pl)%Z && overlap o.

(** The timing step (lines 125-126): [_last || now] takes [now] when
    [_last] is undefined or zero. *)
Definition frameDelta (lst : option Q) (now : Q) : Q :=
  let last :=
    match lst with
    | Some l => if Qeq_bool l 0 then now else l
    | None => now
    end in
  Qred (Qmin (5 # 100) ((now - last) / 1000)).

(** The phases of [loop], in the order of the source. *)

(** Lines 128-137: elapsed time, difficulty ramp, spawn timer. *)
Definition ramp (dt : Q) (r : Refs) : Refs :=
  let elapsed1 := Qred (elapsed r + dt) in
  let speed1 := Qred (BASE_SPEED + SPEED_GROWTH * elapsed1) in
  let targetSpawn := Qmax MIN_SPAWN (BASE_SPAWN - SPAWN_DECAY * elapsed1) in
  let interval1 :=
    Qred (spawnInterval r * (98 # 100) + targetSpawn * (2 # 100)) in
  {| obstacles := obstacles r; speed := speed1;
     spawnTimer := Qred (spawnTimer r + dt);
     spawnInterval := interval1; elapsed := elapsed1; dead := dead r |}.

(** Lines 138-141. *)
Definition spawn (r1 r2 : Q) (r : Refs) : Refs :=
  if Qle_bool (spawnInterval r) (spawnTimer r)
  then spawnObstacle r1 r2
         {| obstacles := obstacles r; speed := speed r; spawnTimer := 0;
            spawnInterval := spawnInterval r; elapsed := elapsed r;
            dead := dead r |}
  else r.

Definition setObstacles (os : list Obstacle) (r : Refs) : Refs :=
  {| obstacles := os; speed := speed r; spawnTimer := spawnTimer r;
     spawnInterval := spawnInterval r; elapsed := elapsed r; dead := dead r |}.

Definition setDead (b : bool) (r : Refs) : Refs :=
  {| obstacles := obstacles r; speed := speed r; spawnTimer := spawnTimer r;
     spawnInterval := spawnInterval r; elapsed := elapsed r; dead := b |}.

(** Lines 159-175: the first obstacle of the render's lane that
    overlaps ends the run; [best] and [score] are the render's. *)
Definition collide (c : Closure) (W : World) : World :=
  if existsb (hits (playerLane (env c))) (obstacles (refs W))
  then
    let W1 := setRefs (setDead true (refs W)) W in
    let W2 := setRunning (fun _ => false) W1 in
    let newBest := Math_max (best (env c)) (score (env c)) in
    let W3 := setBest newBest W2 in
    setItem (String_of newBest) W3
  else W.

(** [loop] (lines 113-179) of the render whose closure is [c], called
    with the timestamp [now]; [r1], [r2] are the random numbers
    [spawnObstacle] draws if it is called.  The result is the closure
    (its [_last] may have changed) and the new world. *)
Definition loop (c : Closure) (now r1 r2 : Q) (W : World) : Closure * World :=
  if negb (canvas W) then (c, W)
  else if negb (running (env c)) || dead (refs W)
  then (c, emit RequestFrame (draw c W))
  else
    let dt := frameDelta (last c) now in
    let c' := {| env := env c; last := Some now |} in
    let rs := spawn r1 r2 (ramp dt (refs W)) in
    let '(moved, n) := updateObstacles (speed rs) dt (obstacles rs) in
    let W1 := setScore (fun s => (s + n)%Z) W in
    let W2 := setRefs (setObstacles (filter onScreen moved) rs) W1 in
    let W3 := collide c W2 in
    (c', emit RequestFrame (draw c W3)).

(** ** Events and the transition function *)

(** [toLowerCase] on the ASCII letters. *)
Definition lowerAscii (c : ascii) : ascii :=
  let n := N_of_ascii c in
  if (65 <=? n)%N && (n <=? 90)%N then ascii_of_N (n + 32) else c.

Fixpoint toLowerCase (s : string) : string :=
  match s with
  | EmptyString => EmptyString
  | String c s' => String (lowerAscii c) (toLowerCase s')
  end.

(** What the host can deliver: an animation frame with its timestamp
    (and the two random numbers a spawn in it would draw), a
    [pointerdown] on the canvas at horizontal offset
    [x = e.clientX - rect.left], a [keydown] with its [e.key], and clicks
    on the two buttons. *)
Inductive Event : Type :=
  | Frame (now r1 r2 : Q)
  | PointerDown (x : Q)
  | KeyDown (key : string)
  | ClickPause
  | ClickRestart.

Definition numEqb (a b : num) : bool :=
  match a, b with
  | NaN, NaN => true
  | Int x, Int z => (x =? z)%Z
  | _, _ => false
  end.

Definition renderEqb (a b : Render) : bool :=
  Bool.eqb (running a) (running b) && (playerLane a =? playerLane b)%Z
  && (score a =? score b)%Z && numEqb (best a) (best b).

Definition closureAt (i : nat) (W : World) : Closure :=
  nth i (renders W) {| env := hooks W; last := None |}.

Definition currentRender (W : World) : nat := pred (List.length (renders W)).

Fixpoint setNth {A : Type} (i : nat) (a : A) (l : list A) : list A :=
  match l, i with
  | [], _ => []
  | _ :: t, O => a :: t
  | x :: t, S j => x :: setNth j a t
  end.

(** One animation frame: the scheduled [loop] runs; what it stored in
    its own [_last] stays with its closure. *)
Definition frame (now r1 r2 : Q) (W : World) : World :=
  let '(c', W') := loop (closureAt (live W) W) now r1 r2 W in
  {| hooks := hooks W'; refs := refs W'; storage := storage W';
     canvas := canvas W'; renders := setNth (live W) c' (renders W');
     live := live W'; out := out W' |}.

(** The two [pointerdown] listeners of the canvas, in the order their
    effects registered them (lines 53-62, then 247-249).  Both belong
    to the first render. *)
Definition onPointerDown (x : Q) (W : World) : World :=
  let half := CANVAS_W / 2 in
  let W1 :=
    if Qlt_bool x half
    then setPlayerLane (fun l => clamp (l - 1) 0 (LANES - 1)) W
    else setPlayerLane (fun l => clamp (l + 1) 0 (LANES - 1)) W in
  if dead (refs W1) then restart 0 W1 else W1.

(** [onKey] (lines 69-79), of the first render. *)
Definition onKey (key : string) (W : World) : World :=
  let lower := toLowerCase key in
  if (key =? "ArrowLeft")%string || (lower =? "a")%string
  then setPlayerLane (fun l => clamp (l - 1) 0 (LANES - 1)) W
  else if (key =? "ArrowRight")%string || (lower =? "d")%string
  then setPlayerLane (fun l => clamp (l + 1) 0 (LANES - 1)) W
  else if (lower =? "r")%string
  then (if dead (refs W) then restart 0 W else W)
  else if (lower =? "p")%string
  then setRunning negb W
  else W.

(** After an event React renders again if a hook changed; the new
    render's functions see the new values and its [loop] has no [_last]
    yet. *)
Definition commit (W : World) : World :=
  if renderEqb (env (closureAt (currentRender W) W)) (hooks W) then W
  else {| hooks := hooks W; refs := refs W; storage := storage W;
          canvas := canvas W;
          renders := renders W ++ [{| env := hooks W; last := None |}];
          live := live W; out := out W |}.

Definition handle (e : Event) (W : World) : World :=
  match e with
  | Frame now r1 r2 => frame now r1 r2 W
  | PointerDown x => onPointerDown x W
  | KeyDown key => onKey key W
  | ClickPause => setRunning negb W
  | ClickRestart => restart (currentRender W) W
  end.

Definition step (W : World) (e : Event) : World := commit (handle e W).

Definition run (W : World) (es : list Event) : World := fold_left step es W.

(** [frames n t]: [n] frames 50 ms apart, the first at time [t] (in
    ms), every one with the random numbers [r1], [r2]. *)
Fixpoint frames (n : nat) (t r1 r2 : Q) : list Event :=
  match n with
  | O => []
  | S k => Frame t r1 r2 :: frames k (Qred (t + 50)) r1 r2
  end.

(** ** Vocabulary of the properties *)

(** Whether the call simulates: the canvas exists, the render the loop
    belongs to was running, and the run has not ended. *)
Definition simulates (c : Closure) (W : World) : bool :=
  canvas W && running (env c) && negb (dead (refs W)).

(** The refs after the spawn phase and the list after the obstacle
    update, as [loop] computes them. *)
Definition spawned (c : Closure) (now r1 r2 : Q) (W : World) : Refs :=
  spawn r1 r2 (ramp (frameDelta (last c) now) (refs W)).

Definition moved (c : Closure) (now r1 r2 : Q) (W : World) : list Obstacle * Z :=
  let rs := spawned c now r1 r2 W in
  updateObstacles (speed rs) (frameDelta (last c) now) (obstacles rs).

(** A lane index within [0, LANES - 1], in the state and in every
    render. *)
Definition laneOk (l : Z) : Prop := (0 <= l <= LANES - 1)%Z.

Definition lanesOk (W : World) : Prop :=
  laneOk (playerLane (hooks W))
  /\ Forall (fun c => laneOk (playerLane (env c))) (renders W).

(** The timestamps [requestAnimationFrame] passes never go back.
    [timesOk t es]: the frame timestamps of [es] are non-decreasing and
    not before [t], the timestamp of the last frame so far, if any. *)
Fixpoint timesOk (t : option Q) (es : list Event) : bool :=
  match es with
  | [] => true
  | Frame now _ _ :: es' =>
      match t with Some t0 => Qle_bool t0 now | None => true end
      && timesOk (Some now) es'
  | _ :: es' => timesOk t es'
  end.

(** The timestamp of the last frame of [es], or [t] if it has none. *)
Fixpoint lastStamp (t : option Q) (es : list Event) : option Q :=
  match es with
  | [] => t
  | Frame now _ _ :: es' => lastStamp (Some now) es'
  | _ :: es' => lastStamp t es'
  end.

(** A stored [_last] is not after the last frame's timestamp. *)
Definition notAfter (l : option Q) (t : option Q) : Prop :=
  match l, t with
  | None, _ => True
  | Some _, None => False
  | Some a, Some b => a <= b
  end.

(** The target interval of line 132 at elapsed time [e]. *)
Definition targetSpawn (e : Q) : Q :=
  Qmax MIN_SPAWN (BASE_SPAWN - SPAWN_DECAY * e).

(** An obstacle is flagged exactly when its lower edge is at or below
    the player's line. *)
Definition flagged (o : Obstacle) : Prop :=
  passed o = Qle_bool PLAYER_Y (y o + h o).

(** What holds of the refs in every world reached with a monotone clock. *)
Record RefsOk (r : Refs) : Prop := mkRefsOk
  { ok_elapsed : 0 <= elapsed r
  ; ok_speed : speed r == BASE_SPEED + SPEED_GROWTH * elapsed r
  ; ok_interval : targetSpawn (elapsed r) <= spawnInterval r
  ; ok_flags : Forall flagged (obstacles r) }.

(** ... and of the world: no [loop] holds a [_last] from the future. *)
Record Good (t : option Q) (W : World) : Prop := mkGood
  { good_last : Forall (fun c => notAfter (last c) t) (renders W)
  ; good_refs : RefsOk (refs W) }.

(** [crossing o o']: [o'] is [o] one frame later.  Only [y] and
    [passed] can differ; [y] has not decreased; a set flag stays set;
    a flag that is set in this frame is set with the lower edge above
    the line before the move and at or below it after; a flag still
    clear means the lower edge is still above the line. *)
Record crossing (o o' : Obstacle) : Prop := mkCrossing
  { cr_lane : lane o' = lane o
  ; cr_w : w o' = w o
  ; cr_h : h o' = h o
  ; cr_y : y o <= y o'
  ; cr_keep : passed o = true -> passed o' = true
  ; cr_set : passed o = false -> passed o' = true ->
             y o + h o < PLAYER_Y /\ PLAYER_Y <= y o' + h o'
  ; cr_clear : passed o' = false -> y o' + h o' < PLAYER_Y }.

(** The number of flags set between a list and the list one frame
    later. *)
Fixpoint transitions (os os' : list Obstacle) : Z :=
  match os, os' with
  | o :: t, o' :: t' =>
      ((if negb (passed o) && passed o' then 1 else 0) + transitions t t')%Z
  | _, _ => 0%Z
  end.

Definition isFrame (e : Event) : bool :=
  match e with Frame _ _ _ => true | _ => false end.

(** The next timestamp is not before the last one. *)
Definition clockOk (t : option Q) (now : Q) : Prop :=
  match t with Some t0 => t0 <= now | None => True end.

(** The run used below: mount with nothing stored, then frames 50 ms
    apart in which every spawn draws lane 0 and the least height. *)
Definition laneZeroRun (n : nat) : World :=
  run (initWorld None) (frames n 1000 0 0).

(** The values written to [localStorage], oldest first. *)
Fixpoint writes (l : list Effect) : list string :=
  match l with
  | [] => []
  | SetItem _ s :: t => s :: writes t
  | _ :: t => writes t
  end.

(** The best score the collision check computes: the maximum of the
    [best] and the [score] of the render the loop belongs to. *)
Definition newBest (c : Closure) : num :=
  Math_max (best (env c)) (score (env c)).

(** Three runs, all frames 50 ms apart: one obstacle in lane 0 then
    obstacles in lane 1; a click on Restart after the first obstacle
    was passed, then obstacles in lane 1; a tap on the dead screen,
    then obstacles in lane 1. *)
Definition scoreThenCrash : list Event :=
  frames 30 1000 0 0 ++ frames 78 2500 (1 # 2) 0.

Definition restartAtOne : list Event :=
  frames 100 1000 0 0 ++ [ClickRestart] ++ frames 90 6000 (1 # 2) 0.

Definition tapAndCrash : list Event :=
  [PointerDown 0] ++ frames 92 10500 (1 # 2) 0.

(** ** Vocabulary of the further properties *)

(** The integer a decimal numeral spells, read from the left, after the
    digits already read gave [a]. *)
Fixpoint decimalValue (d : Decimal.uint) (a : Z) : Z :=
  match d with
  | Decimal.Nil => a
  | Decimal.D0 d' => decimalValue d' (10 * a + 0)
  | Decimal.D1 d' => decimalValue d' (10 * a + 1)
  | Decimal.D2 d' => decimalValue d' (10 * a + 2)
  | Decimal.D3 d' => decimalValue d' (10 * a + 3)
  | Decimal.D4 d' => decimalValue d' (10 * a + 4)
  | Decimal.D5 d' => decimalValue d' (10 * a + 5)
  | Decimal.D6 d' => decimalValue d' (10 * a + 6)
  | Decimal.D7 d' => decimalValue d' (10 * a + 7)
  | Decimal.D8 d' => decimalValue d' (10 * a + 8)
  | Decimal.D9 d' => decimalValue d' (10 * a + 9)
  end%Z.

(** The two random numbers of a frame are in [0, 1), as
    [Math.random()] returns them. *)
Definition drawsOk (e : Event) : bool :=
  match e with
  | Frame _ r1 r2 =>
      Qle_bool 0 r1 && Qlt_bool r1 1 && Qle_bool 0 r2 && Qlt_bool r2 1
  | _ => true
  end.

(** The shape [spawnObstacle] gives an obstacle: a lane of the board, a
    height from 26 to 46 and the width 72. *)
Definition shaped (o : Obstacle) : Prop :=
  (0 <= lane o <= LANES - 1)%Z /\ 26 <= h o /\ h o <= 46 /\ w o == 72.

(** A number that is NaN or an integer every JavaScript number holds
    exactly (at most [Number.MAX_SAFE_INTEGER] in absolute value). *)
Definition safeNum (n : num) : bool :=
  match n with
  | NaN => true
  | Int z => (Z.abs z <=? 9007199254740991)%Z
  end.

(** The refs [restart] leaves. *)
Definition freshRefs : Refs :=
  {| obstacles := []; speed := BASE_SPEED; spawnTimer := 0;
     spawnInterval := BASE_SPAWN; elapsed := 0; dead := false |}.

(** Bounds on the refs that hold next to [RefsOk] when the clock is
    monotone. *)
Record Bounded (r : Refs) : Prop := mkBounded
  { bd_interval : spawnInterval r <= BASE_SPAWN
  ; bd_timer : 0 <= spawnTimer r
  ; bd_lower : Forall (fun o => 0 <= y o + h o) (obstacles r) }.

(** Any event but a click on the Restart button. *)
Definition notRestartClick (e : Event) : bool :=
  match e with ClickRestart => false | _ => true end.

(** The scheduled [loop] belongs to an existing render that saw
    [running = false], and the refs are those of a fresh run. *)
Definition frozen (W : World) : Prop :=
  refs W = freshRefs
  /\ exists c, nth_error (renders W) (live W) = Some c
               /\ running (env c) = false.

(** * Properties *)

(** ** The shape of one call of [loop] *)

Lemma loop_idle (c : Closure) (now r1 r2 : Q) (W : World) :
  canvas W = true -> simulates c W = false ->
  loop c now r1 r2 W = (c, emit RequestFrame (draw c W)).
Proof.
  unfold simulates, loop. intros ->. cbn [andb negb].
  destruct (running (env c)), (dead (refs W)); cbn; congruence.
Qed.

Lemma loop_active (c : Closure) (now r1 r2 : Q) (W : World) :
  simulates c W = true ->
  loop c now r1 r2 W =
    ({| env := env c; last := Some now |},
     emit RequestFrame
       (draw c
          (collide c
             (setRefs
                (setObstacles (filter onScreen (fst (moved c now r1 r2 W)))
                   (spawned c now r1 r2 W))
                (setScore (fun s => (s + snd (moved c now r1 r2 W))%Z) W))))).
Proof.
  unfold simulates, loop, moved, spawned. intros H.
  apply andb_prop in H as [H Hd]. apply andb_prop in H as [Hc Hr].
  rewrite Hc, Hr. apply negb_true_iff in Hd. rewrite Hd. cbn [negb orb].
  destruct (updateObstacles _ _ _); reflexivity.
Qed.

Lemma loop_no_canvas (c : Closure) (now r1 r2 : Q) (W : World) :
  canvas W = false -> loop c now r1 r2 W = (c, W).
Proof. unfold loop. intros ->. reflexivity. Qed.

(** Projections through the effects that only extend [out]. *)
Lemma hooks_emit e W : hooks (emit e W) = hooks W.
Proof. reflexivity. Qed.
Lemma refs_emit e W : refs (emit e W) = refs W.
Proof. reflexivity. Qed.
Lemma renders_emit e W : renders (emit e W) = renders W.
Proof. reflexivity. Qed.
Lemma live_emit e W : live (emit e W) = live W.
Proof. reflexivity. Qed.
Lemma canvas_emit e W : canvas (emit e W) = canvas W.
Proof. reflexivity. Qed.
Lemma storage_emit e W : storage (emit e W) = storage W.
Proof. reflexivity. Qed.
Lemma hooks_draw c W : hooks (draw c W) = hooks W.
Proof. reflexivity. Qed.
Lemma refs_draw c W : refs (draw c W) = refs W.
Proof. reflexivity. Qed.
Lemma renders_draw c W : renders (draw c W) = renders W.
Proof. reflexivity. Qed.
Lemma live_draw c W : live (draw c W) = live W.
Proof. reflexivity. Qed.
Lemma canvas_draw c W : canvas (draw c W) = canvas W.
Proof. reflexivity. Qed.
Lemma storage_draw c W : storage (draw c W) = storage W.
Proof. reflexivity. Qed.

Create Rewrite HintDb world.

#[local] Hint Rewrite hooks_emit refs_emit renders_emit live_emit canvas_emit
  storage_emit hooks_draw refs_draw renders_draw live_draw canvas_draw
  storage_draw : world.

Lemma collide_hooks_lane (c : Closure) (W : World) :
  playerLane (hooks (collide c W)) = playerLane (hooks W).
Proof. unfold collide. destruct (existsb _ _); reflexivity. Qed.

Lemma collide_renders (c : Closure) (W : World) :
  renders (collide c W) = renders W /\ live (collide c W) = live W
  /\ canvas (collide c W) = canvas W.
Proof. unfold collide. destruct (existsb _ _); repeat split; reflexivity. Qed.

Lemma loop_env (c : Closure) (now r1 r2 : Q) (W : World) :
  env (fst (loop c now r1 r2 W)) = env c.
Proof.
  destruct (canvas W) eqn:Hc; [|rewrite loop_no_canvas by assumption; reflexivity].
  destruct (simulates c W) eqn:Hs.
  - rewrite loop_active by assumption. reflexivity.
  - rewrite loop_idle by assumption. reflexivity.
Qed.

Lemma loop_frame_of_world (c : Closure) (now r1 r2 : Q) (W : World) :
  let W' := snd (loop c now r1 r2 W) in
  playerLane (hooks W') = playerLane (hooks W)
  /\ renders W' = renders W /\ live W' = live W /\ canvas W' = canvas W.
Proof.
  destruct (canvas W) eqn:Hc; [|rewrite loop_no_canvas by assumption; cbn; auto].
  destruct (simulates c W) eqn:Hs.
  - rewrite loop_active by assumption. cbn [snd]. cbv zeta.
    autorewrite with world.
    rewrite collide_hooks_lane.
    destruct (collide_renders c
      (setRefs (setObstacles (filter onScreen (fst (moved c now r1 r2 W)))
                  (spawned c now r1 r2 W))
         (setScore (fun s => (s + snd (moved c now r1 r2 W))%Z) W)))
      as (-> & -> & ->).
    cbn. auto.
  - rewrite loop_idle by assumption. cbn. auto.
Qed.

(** ** Restart (C9) *)

(** C9.  [restart], from any world and for whichever render it belongs
    to, leaves the obstacle list empty, the speed at [BASE_SPEED], the
    spawn interval at [BASE_SPAWN], the spawn timer and the elapsed time
    at zero, the dead flag cleared, the score at zero and the running
    flag set; the same holds after the Restart button's click has been
    processed. *)
Theorem restart_resets (i : nat) (W : World) :
  (let W' := restart i W in
   obstacles (refs W') = [] /\ speed (refs W') = BASE_SPEED
   /\ spawnInterval (refs W') = BASE_SPAWN /\ spawnTimer (refs W') = 0
   /\ elapsed (refs W') = 0 /\ dead (refs W') = false
   /\ score (hooks W') = 0%Z /\ running (hooks W') = true)
  /\ (let W' := step W ClickRestart in
      obstacles (refs W') = [] /\ speed (refs W') = BASE_SPEED
      /\ spawnInterval (refs W') = BASE_SPAWN /\ spawnTimer (refs W') = 0
      /\ elapsed (refs W') = 0 /\ dead (refs W') = false
      /\ score (hooks W') = 0%Z /\ running (hooks W') = true).
Proof.
  split.
  - cbn. repeat split; reflexivity.
  - unfold step, commit, handle.
    destruct (renderEqb _ _); cbn; repeat split; reflexivity.
Qed.

(** ** Lane bounds (C8) *)

Lemma clamp_range (n lo hi : Z) : (lo <= hi)%Z -> (lo <= clamp n lo hi <= hi)%Z.
Proof. unfold clamp. lia. Qed.

Lemma Forall_setNth {A : Type} (P : A -> Prop) (i : nat) (a : A) (l : list A) :
  Forall P l -> P a -> Forall P (setNth i a l).
Proof.
  intros Hl Ha. revert i.
  induction Hl as [|x t Hx Ht IH]; intros [|j]; cbn; constructor; auto.
Qed.

Lemma closureAt_Forall (P : Closure -> Prop) (i : nat) (W : World) :
  Forall P (renders W) -> P {| env := hooks W; last := None |} ->
  P (closureAt i W).
Proof.
  intros Hl Hd. unfold closureAt.
  destruct (nth_in_or_default i (renders W) {| env := hooks W; last := None |})
    as [Hin | ->]; [|exact Hd].
  rewrite Forall_forall in Hl. auto.
Qed.

Lemma lanesOk_init (v : option string) : lanesOk (initWorld v).
Proof.
  split; [|constructor; [|constructor]]; cbn; unfold laneOk, LANES; lia.
Qed.

Lemma lanesOk_frame (now r1 r2 : Q) (W : World) :
  lanesOk W -> lanesOk (frame now r1 r2 W).
Proof.
  intros [Hh Hr]. unfold frame.
  pose proof (loop_frame_of_world (closureAt (live W) W) now r1 r2 W) as Hw.
  pose proof (loop_env (closureAt (live W) W) now r1 r2 W) as He.
  destruct (loop (closureAt (live W) W) now r1 r2 W) as [c' W'].
  cbn [fst snd] in *. destruct Hw as (Hl & Hrs & _ & _).
  split; cbn [hooks renders].
  - rewrite Hl. exact Hh.
  - rewrite Hrs. apply Forall_setNth; [exact Hr|].
    rewrite He.
    apply (closureAt_Forall (fun c => laneOk (playerLane (env c)))); assumption.
Qed.

Lemma lanesOk_setPlayerLane (f : Z -> Z) (W : World) :
  (forall l, laneOk (f l)) -> lanesOk W -> lanesOk (setPlayerLane f W).
Proof. intros Hf [_ Hr]. split; cbn; auto. Qed.

Lemma lanesOk_restart (i : nat) (W : World) : lanesOk W -> lanesOk (restart i W).
Proof. intros [Hh Hr]. split; cbn; auto. Qed.

Lemma lanesOk_setRunning (f : bool -> bool) (W : World) :
  lanesOk W -> lanesOk (setRunning f W).
Proof. intros [Hh Hr]. split; cbn; auto. Qed.

Lemma laneOk_clamp (n : Z) : laneOk (clamp n 0 (LANES - 1)).
Proof. apply clamp_range. unfold LANES. lia. Qed.

Lemma lanesOk_handle (e : Event) (W : World) : lanesOk W -> lanesOk (handle e W).
Proof.
  intros H. destruct e as [now r1 r2|x|key| |]; cbn [handle].
  - apply lanesOk_frame, H.
  - unfold onPointerDown.
    destruct (Qlt_bool x (CANVAS_W / 2));
      match goal with |- lanesOk (if dead (refs ?X) then _ else _) =>
        assert (lanesOk X) as HX
          by (apply lanesOk_setPlayerLane; [intros; apply laneOk_clamp|exact H]);
        destruct (dead (refs X)); [apply lanesOk_restart|]; exact HX
      end.
  - unfold onKey.
    destruct (_ || _); [apply lanesOk_setPlayerLane; [intros; apply laneOk_clamp|exact H]|].
    destruct (_ || _); [apply lanesOk_setPlayerLane; [intros; apply laneOk_clamp|exact H]|].
    destruct (_ =? _)%string.
    { destruct (dead (refs W)); [apply lanesOk_restart|]; exact H. }
    destruct (_ =? _)%string; [apply lanesOk_setRunning|]; exact H.
  - apply lanesOk_setRunning, H.
  - apply lanesOk_restart, H.
Qed.

Lemma lanesOk_commit (W : World) : lanesOk W -> lanesOk (commit W).
Proof.
  intros [Hh Hr]. unfold commit. destruct (renderEqb _ _); [split; assumption|].
  split; cbn [hooks renders]; [exact Hh|].
  apply Forall_app. split; [exact Hr|]. constructor; [exact Hh|constructor].
Qed.

Lemma lanesOk_run (es : list Event) (W : World) : lanesOk W -> lanesOk (run W es).
Proof.
  revert W. induction es as [|e es IH]; intros W H; [exact H|].
  cbn. apply IH. unfold step. apply lanesOk_commit, lanesOk_handle, H.
Qed.

(** C8.  After any sequence of events from mount (pointer taps, keys,
    button clicks and frames, in any number and order) the player's lane
    index is within [0, LANES - 1], that is [0, 2]; so is the lane seen
    by every render, hence by whichever [loop] is scheduled. *)
Theorem lane_in_bounds (v : option string) (es : list Event) :
  let W := run (initWorld v) es in
  (0 <= playerLane (hooks W) <= 2)%Z
  /\ (0 <= playerLane (env (closureAt (live W) W)) <= 2)%Z.
Proof.
  destruct (lanesOk_run es (initWorld v) (lanesOk_init v)) as [Hh Hr].
  split; [exact Hh|].
  apply (closureAt_Forall (fun c => laneOk (playerLane (env c)))); assumption.
Qed.

(** ** Spawning (C10) *)

Lemma newObstacle_lane (r1 r2 : Q) :
  0 <= r1 -> r1 < 1 -> (0 <= lane (newObstacle r1 r2) < LANES)%Z.
Proof.
  intros H0 H1. cbn [lane newObstacle]. unfold LANES. split.
  - change 0%Z with (Qfloor (inject_Z 0)). apply Qfloor_resp_le.
    change (inject_Z 0) with 0. change (inject_Z 3) with 3. lra.
  - rewrite Zlt_Qlt. apply Qle_lt_trans with (r1 * inject_Z 3).
    + apply Qfloor_le.
    + change (inject_Z 3) with 3. lra.
Qed.

Lemma updateObstacles_length (s dt : Q) (os : list Obstacle) :
  List.length (fst (updateObstacles s dt os)) = List.length os.
Proof.
  induction os as [|o os IH]; [reflexivity|].
  cbn [updateObstacles]. destruct (updateObstacles s dt os) as [rest n].
  cbn [fst] in IH. destruct (negb (passed o) && _); cbn; congruence.
Qed.

Lemma collide_refs (c : Closure) (W : World) :
  refs (collide c W) =
    setDead (dead (refs W) || existsb (hits (playerLane (env c))) (obstacles (refs W)))
      (refs W).
Proof.
  unfold collide. destruct (existsb _ _); cbn.
  - rewrite orb_true_r. reflexivity.
  - rewrite orb_false_r. destruct (refs W); reflexivity.
Qed.

Lemma loop_active_refs (c : Closure) (now r1 r2 : Q) (W : World) :
  simulates c W = true ->
  let rs := spawned c now r1 r2 W in
  let kept := filter onScreen (fst (moved c now r1 r2 W)) in
  refs (snd (loop c now r1 r2 W)) =
    {| obstacles := kept; speed := speed rs; spawnTimer := spawnTimer rs;
       spawnInterval := spawnInterval rs; elapsed := elapsed rs;
       dead := existsb (hits (playerLane (env c))) kept |}.
Proof.
  intros Hs. rewrite loop_active by assumption. cbn [snd]. cbv zeta.
  autorewrite with world. rewrite collide_refs. cbn.
  unfold simulates in Hs. apply andb_prop in Hs as [_ Hd].
  apply negb_true_iff in Hd.
  assert (dead (spawned c now r1 r2 W) = false) as ->; [|reflexivity].
  unfold spawned, spawn, ramp. destruct (Qle_bool _ _); cbn; exact Hd.
Qed.

Lemma loop_idle_refs (c : Closure) (now r1 r2 : Q) (W : World) :
  simulates c W = false -> refs (snd (loop c now r1 r2 W)) = refs W.
Proof.
  intros Hs. destruct (canvas W) eqn:Hc.
  - rewrite loop_idle by assumption. reflexivity.
  - rewrite loop_no_canvas by assumption. reflexivity.
Qed.

(** C10.  A frame spawns no obstacle or exactly one, whatever the
    clamped delta is and however far the spawn timer is past the
    interval.  In a call of [loop] that simulates, with [dt] its
    clamped delta: if the timer plus [dt] has reached the interval,
    the timer is exactly zero after the frame (the excess is dropped)
    and the list the frame leaves is the old list with one obstacle
    [o] appended, moved and filtered, where [o] was created with
    [passed = false], a lane among 0, 1, 2 and its top at [- h];
    otherwise the timer has gained [dt] and the list the frame leaves
    is the old list moved and filtered.  A call that does not simulate
    leaves the refs alone.  In every case the list grows by at most
    one.  The spawn phase taken alone behaves the same way on any
    refs. *)
Theorem spawn_at_most_one (c : Closure) (now r1 r2 : Q) (W : World)
    (H0 : 0 <= r1) (H1 : r1 < 1) :
  let W' := snd (loop c now r1 r2 W) in
  let dt := frameDelta (last c) now in
  (if simulates c W then
     (spawnInterval (refs W') <= spawnTimer (refs W) + dt
      /\ spawnTimer (refs W') = 0
      /\ exists o,
           passed o = false
           /\ (lane o = 0 \/ lane o = 1 \/ lane o = 2)%Z
           /\ y o == - h o
           /\ obstacles (refs W') =
                filter onScreen
                  (fst (updateObstacles (speed (refs W')) dt
                          (obstacles (refs W) ++ [o]))))
     \/ (spawnTimer (refs W) + dt < spawnInterval (refs W')
         /\ spawnTimer (refs W') == spawnTimer (refs W) + dt
         /\ obstacles (refs W') =
              filter onScreen
                (fst (updateObstacles (speed (refs W')) dt
                        (obstacles (refs W)))))
   else refs W' = refs W)
  /\ (List.length (obstacles (refs W'))
      <= List.length (obstacles (refs W)) + 1)%nat
  /\ (forall r : Refs,
        let r' := spawn r1 r2 r in
        (Qle_bool (spawnInterval r) (spawnTimer r) = false /\ r' = r)
        \/ (spawnInterval r <= spawnTimer r
            /\ spawnTimer r' = 0
            /\ exists o, obstacles r' = obstacles r ++ [o]
                 /\ passed o = false
                 /\ (lane o = 0 \/ lane o = 1 \/ lane o = 2)%Z
                 /\ y o == - h o)).
Proof.
  cbv zeta.
  assert (lane (newObstacle r1 r2) = 0 \/ lane (newObstacle r1 r2) = 1
          \/ lane (newObstacle r1 r2) = 2)%Z as Hlane.
  { pose proof (newObstacle_lane r1 r2 H0 H1). unfold LANES in *. lia. }
  assert (y (newObstacle r1 r2) == - h (newObstacle r1 r2)) as Hy
      by (cbn [y h newObstacle]; apply Qred_correct).
  split; [|split].
  - destruct (simulates c W) eqn:Hs;
      [|apply loop_idle_refs; exact Hs].
    rewrite loop_active_refs by assumption.
    cbn [obstacles speed spawnTimer spawnInterval].
    unfold moved, spawned, spawn.
    set (dt := frameDelta (last c) now).
    set (rr := ramp dt (refs W)).
    assert (obstacles rr = obstacles (refs W)) as Eo by reflexivity.
    assert (spawnTimer rr == spawnTimer (refs W) + dt) as Et
        by (cbn [rr ramp spawnTimer]; apply Qred_correct).
    destruct (Qle_bool (spawnInterval rr) (spawnTimer rr)) eqn:Hq.
    + left. apply Qle_bool_iff in Hq.
      cbn [spawnObstacle obstacles speed spawnTimer spawnInterval].
      split; [rewrite <- Et; exact Hq|]. split; [reflexivity|].
      exists (newObstacle r1 r2). rewrite Eo. auto.
    + right. split; [|split; [exact Et|rewrite Eo; reflexivity]].
      rewrite <- Et. apply Qnot_le_lt. intros Hle.
      apply Qle_bool_iff in Hle. congruence.
  - destruct (simulates c W) eqn:Hs.
    + rewrite loop_active_refs by assumption. cbn [obstacles].
      eapply Nat.le_trans; [apply filter_length_le|].
      unfold moved. rewrite updateObstacles_length.
      unfold spawned, spawn.
      destruct (Qle_bool _ _); cbn [obstacles ramp spawnObstacle].
      * rewrite length_app. cbn. lia.
      * lia.
    + rewrite loop_idle_refs by assumption. lia.
  - intros r. unfold spawn.
    destruct (Qle_bool (spawnInterval r) (spawnTimer r)) eqn:Hq; [right|left; auto].
    apply Qle_bool_iff in Hq. split; [exact Hq|]. split; [reflexivity|].
    exists (newObstacle r1 r2). auto.
Qed.

Lemma spawn_at_most_one_witness :
  0 <= 1 # 2 /\ 1 # 2 < 1
  /\ (let W := run (initWorld None) (frames 20 1000 (1 # 2) 0) in
      let c := closureAt (live W) W in
      let W' := snd (loop c 2000 (1 # 2) 0 W) in
      spawnTimer (refs W) = 19 # 20
      /\ spawnTimer (refs W') = 0
      /\ exists o,
           passed o = false
           /\ (lane o = 0 \/ lane o = 1 \/ lane o = 2)%Z
           /\ y o == - h o
           /\ obstacles (refs W') =
                filter onScreen
                  (fst (updateObstacles (speed (refs W'))
                          (frameDelta (last c) 2000)
                          (obstacles (refs W) ++ [o])))).
Proof.
  assert (0 <= 1 # 2) as H0 by (unfold Qle; cbn; lia).
  assert (1 # 2 < 1) as H1 by (unfold Qlt; cbn; lia).
  split; [exact H0|]. split; [exact H1|]. cbv zeta.
  split; [vm_compute; reflexivity|].
  pose proof (spawn_at_most_one
                (closureAt (live (run (initWorld None) (frames 20 1000 (1 # 2) 0)))
                   (run (initWorld None) (frames 20 1000 (1 # 2) 0)))
                2000 (1 # 2) 0
                (run (initWorld None) (frames 20 1000 (1 # 2) 0)) H0 H1) as X.
  cbv zeta in X. destruct X as [X _].
  assert (simulates
            (closureAt (live (run (initWorld None) (frames 20 1000 (1 # 2) 0)))
               (run (initWorld None) (frames 20 1000 (1 # 2) 0)))
            (run (initWorld None) (frames 20 1000 (1 # 2) 0)) = true) as Hs
    by (vm_compute; reflexivity).
  rewrite Hs in X.
  destruct X as [(_ & Ht & Ho) | (Hlt & _)]; [split; [exact Ht|exact Ho]|].
  exfalso. vm_compute in Hlt. discriminate Hlt.
Defined.

(** ** Runs with a monotone clock *)

Lemma timesOk_app (t : option Q) (es es' : list Event) :
  timesOk t (es ++ es') = timesOk t es && timesOk (lastStamp t es) es'.
Proof.
  revert t. induction es as [|e es IH]; intros t; [reflexivity|].
  destruct e; cbn [app timesOk lastStamp]; rewrite ?IH, ?andb_assoc; reflexivity.
Qed.

Lemma frameDelta_range (l : option Q) (now : Q) (t : option Q) :
  notAfter l t -> match t with Some t0 => t0 <= now | None => True end ->
  0 <= frameDelta l now /\ frameDelta l now <= 5 # 100.
Proof.
  intros Hl Ht. unfold frameDelta. rewrite Qred_correct.
  split; [|apply Q.le_min_l].
  apply Q.min_glb; [lra|].
  assert (forall a, a <= now -> 0 <= (now - a) / 1000) as Hdiv.
  { intros a Ha. apply Qle_shift_div_l; lra. }
  destruct l as [a|]; [|apply Hdiv; lra].
  destruct (Qeq_bool a 0); [apply Hdiv; lra|].
  destruct t as [t0|]; cbn in Hl; [|contradiction].
  apply Hdiv. lra.
Qed.

Lemma targetSpawn_anti (e e' : Q) : e <= e' -> targetSpawn e' <= targetSpawn e.
Proof.
  intros H. unfold targetSpawn, SPAWN_DECAY, BASE_SPAWN, MIN_SPAWN.
  apply Q.max_le_compat_l. lra.
Qed.

Lemma targetSpawn_min (e : Q) : MIN_SPAWN <= targetSpawn e.
Proof. apply Q.le_max_l. Qed.

Lemma targetSpawn_Qred (e : Q) : targetSpawn (Qred e) == targetSpawn e.
Proof. unfold targetSpawn. rewrite Qred_correct. reflexivity. Qed.

Lemma RefsOk_reset :
  RefsOk {| obstacles := []; speed := BASE_SPEED; spawnTimer := 0;
            spawnInterval := BASE_SPAWN; elapsed := 0; dead := false |}.
Proof.
  constructor; cbn [elapsed speed spawnInterval obstacles].
  - lra.
  - unfold BASE_SPEED, SPEED_GROWTH. lra.
  - unfold targetSpawn. apply Q.max_lub; unfold BASE_SPAWN, MIN_SPAWN, SPAWN_DECAY; lra.
  - constructor.
Qed.

(** *** The difficulty ramp *)

Lemma ramp_ok (dt : Q) (r : Refs) :
  0 <= dt -> RefsOk r ->
  RefsOk (ramp dt r)
  /\ elapsed r <= elapsed (ramp dt r)
  /\ speed r <= speed (ramp dt r)
  /\ spawnInterval (ramp dt r) <= spawnInterval r.
Proof.
  intros Hdt [He Hs Hi Hf].
  assert (elapsed (ramp dt r) == elapsed r + dt) as Ee
      by (cbn [ramp elapsed]; apply Qred_correct).
  assert (speed (ramp dt r) == BASE_SPEED + SPEED_GROWTH * elapsed (ramp dt r)) as Es
      by (cbn [ramp speed elapsed]; apply Qred_correct).
  assert (spawnInterval (ramp dt r) ==
          spawnInterval r * (98 # 100)
          + targetSpawn (elapsed (ramp dt r)) * (2 # 100)) as Ei
      by (cbn [ramp spawnInterval elapsed]; apply Qred_correct).
  assert (targetSpawn (elapsed (ramp dt r)) <= targetSpawn (elapsed r)) as Ht
      by (apply targetSpawn_anti; lra).
  repeat split.
  - lra.
  - exact Es.
  - lra.
  - exact Hf.
  - lra.
  - rewrite Es, Hs. unfold SPEED_GROWTH. lra.
  - lra.
Qed.

Lemma flagged_new (r1 r2 : Q) : flagged (newObstacle r1 r2).
Proof.
  unfold flagged. cbn [passed y h newObstacle].
  destruct (Qle_bool _ _) eqn:Hq; [|reflexivity].
  apply Qle_bool_iff in Hq. rewrite (Qred_correct (- _)) in Hq.
  unfold PLAYER_Y, CANVAS_H in Hq. lra.
Qed.

Lemma spawn_ok (r1 r2 : Q) (r : Refs) :
  RefsOk r ->
  RefsOk (spawn r1 r2 r)
  /\ elapsed (spawn r1 r2 r) = elapsed r
  /\ speed (spawn r1 r2 r) = speed r
  /\ spawnInterval (spawn r1 r2 r) = spawnInterval r.
Proof.
  intros [He Hs Hi Hf]. unfold spawn.
  destruct (Qle_bool _ _); [|repeat split; assumption].
  repeat split; cbn; try assumption.
  apply Forall_app. split; [exact Hf|].
  constructor; [apply flagged_new|constructor].
Qed.

(** *** One obstacle across one frame *)

Lemma updateObstacles_crossing (s dt : Q) (os : list Obstacle) :
  0 <= s * dt -> Forall flagged os ->
  let r := updateObstacles s dt os in
  Forall2 crossing os (fst r) /\ Forall flagged (fst r)
  /\ snd r = transitions os (fst r).
Proof.
  intros Hm Hf. induction Hf as [|o os Ho Hos IH]; [cbn; auto|].
  cbn [updateObstacles]. cbv zeta in IH.
  destruct (updateObstacles s dt os) as [rest n]. cbn [fst snd] in IH.
  destruct IH as (IH2 & IHf & IHn).
  pose proof (Qred_correct (y o + s * dt)) as Ey.
  unfold flagged in Ho.
  destruct (passed o) eqn:Hp; cbn [negb andb].
  - (* already counted *)
    symmetry in Ho. apply Qle_bool_iff in Ho.
    cbn [fst snd transitions passed negb andb]. rewrite Hp. cbn [negb andb].
    repeat split; try assumption.
    + constructor; [|exact IH2].
      constructor; cbn [lane w h y passed]; try reflexivity; try congruence.
      rewrite Ey. lra.
    + constructor; [|exact IHf].
      unfold flagged. cbn [passed y h]. symmetry. apply Qle_bool_iff.
      rewrite Ey. lra.
  - assert (y o + h o < PLAYER_Y) as Hbefore.
    { apply Qnot_le_lt. intros Hle. apply Qle_bool_iff in Hle. congruence. }
    destruct (Qle_bool PLAYER_Y (Qred (y o + s * dt) + h o)) eqn:Hq;
      cbn [fst snd transitions passed negb andb]; rewrite Hp; cbn [negb andb].
    + pose proof Hq as Hq'. apply Qle_bool_iff in Hq'.
      repeat split.
      * constructor; [|exact IH2].
        constructor; cbn [lane w h y passed]; try reflexivity; try congruence;
          try (rewrite Ey; lra).
      * constructor; [|exact IHf].
        unfold flagged. cbn [passed y h]. congruence.
      * lia.
    + repeat split.
      * constructor; [|exact IH2].
        constructor; cbn [lane w h y passed]; try reflexivity; try congruence;
          try (rewrite Ey; lra).
        try (intros _; apply Qnot_le_lt; intros Hle;
             apply Qle_bool_iff in Hle; congruence).
      * constructor; [|exact IHf].
        unfold flagged. cbn [passed y h]. congruence.
      * lia.
Qed.

(** *** Events other than frames *)

Lemma handle_other (e : Event) (W : World) :
  isFrame e = false ->
  (refs (handle e W) = refs W
   \/ refs (handle e W) =
        {| obstacles := []; speed := BASE_SPEED; spawnTimer := 0;
           spawnInterval := BASE_SPAWN; elapsed := 0; dead := false |})
  /\ renders (handle e W) = renders W
  /\ (score (hooks (handle e W)) = score (hooks W)
      \/ score (hooks (handle e W)) = 0%Z)
  /\ (out (handle e W) = out W
      \/ out (handle e W) = (out W ++ [CancelFrame]) ++ [RequestFrame]).
Proof.
  destruct e as [now r1 r2|x|key| |]; cbn [isFrame handle]; intros Hf;
    try discriminate.
  - unfold onPointerDown.
    destruct (Qlt_bool x (CANVAS_W / 2));
      match goal with |- context [if dead (refs ?X) then _ else _] =>
        destruct (dead (refs X)) end; cbn; auto 6.
  - unfold onKey.
    destruct (_ || _); [cbn; auto 6|].
    destruct (_ || _); [cbn; auto 6|].
    destruct (_ =? _)%string; [destruct (dead (refs W)); cbn; auto 6|].
    destruct (_ =? _)%string; cbn; auto 6.
  - cbn. auto 6.
  - cbn. auto 6.
Qed.

Lemma commit_same (W : World) :
  hooks (commit W) = hooks W /\ refs (commit W) = refs W
  /\ storage (commit W) = storage W /\ out (commit W) = out W
  /\ live (commit W) = live W /\ canvas (commit W) = canvas W
  /\ (renders (commit W) = renders W
      \/ renders (commit W) = renders W ++ [{| env := hooks W; last := None |}]).
Proof. unfold commit. destruct (renderEqb _ _); cbn; auto 10. Qed.

Lemma notAfter_later (l t : option Q) (now : Q) :
  notAfter l t -> match t with Some t0 => t0 <= now | None => True end ->
  notAfter l (Some now).
Proof.
  destruct l as [a|], t as [b|]; cbn; intros H1 H2; try contradiction; auto.
  lra.
Qed.

Lemma Good_commit (t : option Q) (W : World) : Good t W -> Good t (commit W).
Proof.
  intros [Hl Hr]. destruct (commit_same W) as (_ & Er & _ & _ & _ & _ & Ers).
  constructor; [|rewrite Er; exact Hr].
  destruct Ers as [-> | ->]; [exact Hl|].
  apply Forall_app. split; [exact Hl|]. constructor; [exact I|constructor].
Qed.

Lemma Good_other (t : option Q) (e : Event) (W : World) :
  isFrame e = false -> Good t W -> Good t (handle e W).
Proof.
  intros Hf [Hl Hr].
  destruct (handle_other e W Hf) as (Er & Ers & _).
  constructor; [rewrite Ers; exact Hl|].
  destruct Er as [-> | ->]; [exact Hr|apply RefsOk_reset].
Qed.

(** *** Frames *)

Lemma frame_fields (now r1 r2 : Q) (W : World) :
  let L := loop (closureAt (live W) W) now r1 r2 W in
  hooks (frame now r1 r2 W) = hooks (snd L)
  /\ refs (frame now r1 r2 W) = refs (snd L)
  /\ storage (frame now r1 r2 W) = storage (snd L)
  /\ out (frame now r1 r2 W) = out (snd L)
  /\ renders (frame now r1 r2 W) = setNth (live W) (fst L) (renders W).
Proof.
  unfold frame.
  pose proof (loop_frame_of_world (closureAt (live W) W) now r1 r2 W) as Hw.
  destruct (loop (closureAt (live W) W) now r1 r2 W) as [c' W'].
  cbn [fst snd] in *. destruct Hw as (_ & -> & _ & _). cbn. auto.
Qed.

Lemma live_notAfter (t : option Q) (W : World) :
  Good t W -> notAfter (last (closureAt (live W) W)) t.
Proof.
  intros [Hl _].
  apply (closureAt_Forall (fun c => notAfter (last c) t)); [exact Hl|exact I].
Qed.

Lemma loop_last (c : Closure) (now r1 r2 : Q) (W : World) :
  last (fst (loop c now r1 r2 W)) = Some now
  \/ last (fst (loop c now r1 r2 W)) = last c.
Proof.
  destruct (canvas W) eqn:Hc; [|rewrite loop_no_canvas by assumption; auto].
  destruct (simulates c W) eqn:Hs.
  - rewrite loop_active by assumption. auto.
  - rewrite loop_idle by assumption. auto.
Qed.

Lemma spawned_ok (c : Closure) (now r1 r2 : Q) (t : option Q) (W : World) :
  notAfter (last c) t -> clockOk t now -> RefsOk (refs W) ->
  let rs := spawned c now r1 r2 W in
  RefsOk rs
  /\ elapsed (refs W) <= elapsed rs
  /\ speed (refs W) <= speed rs
  /\ spawnInterval rs <= spawnInterval (refs W)
  /\ 0 <= speed rs * frameDelta (last c) now.
Proof.
  intros Hl Ht Hr. cbv zeta. unfold spawned.
  destruct (frameDelta_range (last c) now t Hl Ht) as [Hdt _].
  destruct (ramp_ok _ _ Hdt Hr) as (Hr1 & He & Hs & Hi).
  destruct (spawn_ok r1 r2 _ Hr1) as (Hr2 & -> & -> & ->).
  repeat split; try assumption; try apply Hr2.
  apply Qmult_le_0_compat; [|exact Hdt].
  destruct Hr1 as [He1 Hs1 _ _]. rewrite Hs1.
  unfold BASE_SPEED, SPEED_GROWTH. lra.
Qed.

Lemma loop_RefsOk (c : Closure) (now r1 r2 : Q) (t : option Q) (W : World) :
  notAfter (last c) t -> clockOk t now -> RefsOk (refs W) ->
  RefsOk (refs (snd (loop c now r1 r2 W))).
Proof.
  intros Hl Ht Hr. destruct (simulates c W) eqn:Hs;
    [|rewrite loop_idle_refs by assumption; exact Hr].
  rewrite loop_active_refs by assumption.
  destruct (spawned_ok c now r1 r2 t W Hl Ht Hr) as (Hrs & _ & _ & _ & Hm).
  destruct Hrs as [He Hsp Hi Hf].
  constructor; cbn [elapsed speed spawnInterval obstacles]; try assumption.
  apply Forall_forall. intros o Ho.
  apply filter_In in Ho as [Ho _]. revert o Ho. apply Forall_forall.
  unfold moved.
  apply (updateObstacles_crossing _ _ _ Hm Hf).
Qed.

Lemma Good_frame (t : option Q) (now r1 r2 : Q) (W : World) :
  clockOk t now -> Good t W -> Good (Some now) (frame now r1 r2 W).
Proof.
  intros Ht HG. pose proof (live_notAfter t W HG) as Hc.
  destruct HG as [Hl Hr].
  destruct (frame_fields now r1 r2 W) as (_ & Er & _ & _ & Ers).
  constructor.
  - rewrite Ers. apply Forall_setNth.
    + revert Hl. apply Forall_impl. intros c H.
      apply (notAfter_later _ t); assumption.
    + destruct (loop_last (closureAt (live W) W) now r1 r2 W) as [-> | ->].
      * cbn. lra.
      * apply (notAfter_later _ t); assumption.
  - rewrite Er. apply (loop_RefsOk _ _ _ _ t); assumption.
Qed.

Lemma Good_run (es : list Event) (t : option Q) (W : World) :
  Good t W -> timesOk t es = true -> Good (lastStamp t es) (run W es).
Proof.
  revert t W. induction es as [|e es IH]; intros t W HG Ht; [exact HG|].
  destruct e as [now r1 r2|x|key| |]; cbn [timesOk lastStamp] in *;
    cbn [run fold_left]; change (fold_left step es ?X) with (run X es).
  1: { apply andb_prop in Ht as [Ht1 Ht2]. apply IH; [|exact Ht2].
       unfold step. apply Good_commit. cbn [handle]. apply (Good_frame t).
       - destruct t as [t0|]; cbn; [apply Qle_bool_iff; exact Ht1|exact I].
       - exact HG. }
  all: apply IH; [|exact Ht]; unfold step; apply Good_commit;
    apply Good_other; [reflexivity|exact HG].
Qed.

Lemma Good_init (v : option string) : Good None (initWorld v).
Proof.
  constructor; cbn [renders refs initWorld].
  - constructor; [exact I|constructor].
  - apply RefsOk_reset.
Qed.

Lemma collide_score (c : Closure) (W : World) :
  score (hooks (collide c W)) = score (hooks W).
Proof. unfold collide. destruct (existsb _ _); reflexivity. Qed.

Lemma loop_score (c : Closure) (now r1 r2 : Q) (W : World) :
  score (hooks (snd (loop c now r1 r2 W))) =
    if simulates c W then (score (hooks W) + snd (moved c now r1 r2 W))%Z
    else score (hooks W).
Proof.
  destruct (simulates c W) eqn:Hs.
  - rewrite loop_active by assumption. cbn [snd]. autorewrite with world.
    rewrite collide_score. reflexivity.
  - destruct (canvas W) eqn:Hc.
    + rewrite loop_idle by assumption. reflexivity.
    + rewrite loop_no_canvas by assumption. reflexivity.
Qed.

Lemma step_frame_fields (now r1 r2 : Q) (W : World) :
  let L := loop (closureAt (live W) W) now r1 r2 W in
  hooks (step W (Frame now r1 r2)) = hooks (snd L)
  /\ refs (step W (Frame now r1 r2)) = refs (snd L)
  /\ storage (step W (Frame now r1 r2)) = storage (snd L)
  /\ out (step W (Frame now r1 r2)) = out (snd L).
Proof.
  unfold step. cbn [handle].
  destruct (commit_same (frame now r1 r2 W)) as (-> & -> & -> & -> & _).
  destruct (frame_fields now r1 r2 W) as (-> & -> & -> & -> & _). auto.
Qed.

Lemma Good_prefix (v : option string) (es : list Event) (e : Event) :
  timesOk None (es ++ [e]) = true ->
  Good (lastStamp None es) (run (initWorld v) es)
  /\ timesOk (lastStamp None es) [e] = true.
Proof.
  rewrite timesOk_app. intros H. apply andb_prop in H as [H1 H2].
  split; [|exact H2]. apply Good_run; [apply Good_init|exact H1].
Qed.

Lemma clockOk_of_timesOk (t : option Q) (now r1 r2 : Q) :
  timesOk t [Frame now r1 r2] = true -> clockOk t now.
Proof.
  cbn. rewrite andb_true_r.
  destruct t as [t0|]; cbn; [apply Qle_bool_iff|auto].
Qed.

(** ** The difficulty ramp (C3) *)

(** C3.  In a run from mount whose frame timestamps never go back,
    take any frame.  After it the speed is
    [BASE_SPEED + SPEED_GROWTH * elapsed], a non-decreasing function of
    the elapsed time; the elapsed time and the speed have not decreased
    over the frame; the spawn interval has not increased over the
    frame and is at least [MIN_SPAWN] (0.35 s). *)
Theorem ramp_monotone (v : option string) (es : list Event) (now r1 r2 : Q) :
  timesOk None (es ++ [Frame now r1 r2]) = true ->
  let W := run (initWorld v) es in
  let W' := step W (Frame now r1 r2) in
  speed (refs W') == BASE_SPEED + SPEED_GROWTH * elapsed (refs W')
  /\ (forall e1 e2 : Q,
        e1 <= e2 ->
        BASE_SPEED + SPEED_GROWTH * e1 <= BASE_SPEED + SPEED_GROWTH * e2)
  /\ elapsed (refs W) <= elapsed (refs W')
  /\ speed (refs W) <= speed (refs W')
  /\ spawnInterval (refs W') <= spawnInterval (refs W)
  /\ MIN_SPAWN <= spawnInterval (refs W')
  /\ MIN_SPAWN = 35 # 100.
Proof.
  intros H. cbv zeta.
  destruct (Good_prefix v es _ H) as [HG Ht].
  apply clockOk_of_timesOk in Ht.
  set (W := run (initWorld v) es) in *.
  set (t := lastStamp None es) in *.
  pose proof (live_notAfter t W HG) as Hc.
  destruct (step_frame_fields now r1 r2 W) as (_ & Er & _ & _).
  pose proof (loop_RefsOk _ now r1 r2 t W Hc Ht (good_refs _ _ HG)) as Hok.
  rewrite Er.
  split; [apply Hok|].
  split; [intros e1 e2 He; unfold SPEED_GROWTH; lra|].
  assert (MIN_SPAWN <= spawnInterval
            (refs (snd (loop (closureAt (live W) W) now r1 r2 W)))) as Hmin.
  { eapply Qle_trans; [apply targetSpawn_min|apply Hok]. }
  destruct (simulates (closureAt (live W) W) W) eqn:Hs.
  - destruct (spawned_ok _ now r1 r2 t W Hc Ht (good_refs _ _ HG))
      as (_ & He & Hsp & Hi & _).
    rewrite loop_active_refs in * by assumption.
    cbn [elapsed speed spawnInterval] in *. auto 8.
  - rewrite loop_idle_refs in * by assumption.
    repeat split; try apply Qle_refl. exact Hmin.
Qed.

Lemma ramp_monotone_witness :
  timesOk None (frames 3 1000 0 0 ++ [Frame 1170 0 0]) = true
  /\ MIN_SPAWN <=
       spawnInterval
         (refs (step (run (initWorld None) (frames 3 1000 0 0)) (Frame 1170 0 0))).
Proof.
  split; [reflexivity|].
  apply (ramp_monotone None (frames 3 1000 0 0) 1170 0 0). reflexivity.
Defined.

(** ** Scoring (C4) *)

(** C4.  In a run from mount whose frame timestamps never go back,
    take any frame.  If it simulates, every obstacle present after the
    spawn phase is related to its successor by [crossing]: a set flag
    stays set, and a flag is set in this frame exactly when the lower
    edge [y + h], above [PLAYER_Y] before the move, is at or below it
    after the move; the obstacles kept are the successors that are
    still on screen; and the score grows by the number of flags set in
    this frame.  If it does not simulate, obstacles and score are
    unchanged.  An event other than a frame leaves flags and score as
    they are, or (a restart) empties the list and zeroes the score. *)
Theorem passed_once (v : option string) (es : list Event) (now r1 r2 : Q) :
  timesOk None (es ++ [Frame now r1 r2]) = true ->
  let W := run (initWorld v) es in
  let c := closureAt (live W) W in
  let W' := step W (Frame now r1 r2) in
  (if simulates c W then
     let pre := obstacles (spawned c now r1 r2 W) in
     let post := fst (moved c now r1 r2 W) in
     (pre = obstacles (refs W)
      \/ exists o, pre = obstacles (refs W) ++ [o] /\ passed o = false)
     /\ Forall2 crossing pre post
     /\ (forall o o', In (o, o') (combine pre post) ->
           passed o = false ->
           (passed o' = true <-> PLAYER_Y <= y o' + h o'))
     /\ obstacles (refs W') = filter onScreen post
     /\ score (hooks W') = (score (hooks W) + transitions pre post)%Z
   else
     obstacles (refs W') = obstacles (refs W)
     /\ score (hooks W') = score (hooks W))
  /\ (forall e : Event,
        isFrame e = false ->
        (obstacles (refs (step W e)) = obstacles (refs W)
         /\ score (hooks (step W e)) = score (hooks W))
        \/ (obstacles (refs (step W e)) = []
            /\ score (hooks (step W e)) = 0%Z)).
Proof.
  intros H. cbv zeta.
  destruct (Good_prefix v es _ H) as [HG Ht].
  apply clockOk_of_timesOk in Ht.
  set (W := run (initWorld v) es) in *.
  set (t := lastStamp None es) in *.
  set (c := closureAt (live W) W).
  pose proof (live_notAfter t W HG) as Hc. fold c in Hc.
  destruct (step_frame_fields now r1 r2 W) as (Eh & Er & _ & _).
  fold c in Eh, Er. rewrite Eh, Er, loop_score.
  split.
  - destruct (simulates c W) eqn:Hs.
    + rewrite loop_active_refs by assumption. cbn [obstacles].
      destruct (spawned_ok c now r1 r2 t W Hc Ht (good_refs _ _ HG))
        as (Hrs & _ & _ & _ & Hm).
      destruct (updateObstacles_crossing _ _ _ Hm (ok_flags _ Hrs))
        as (H2 & Hfl & Hn).
      fold (moved c now r1 r2 W) in H2, Hfl, Hn.
      split; [|split; [exact H2|split; [|split; [reflexivity|congruence]]]].
      * unfold spawned, spawn.
        destruct (Qle_bool _ _); cbn [obstacles ramp spawnObstacle]; [right|left; reflexivity].
        exists (newObstacle r1 r2). split; reflexivity.
      * intros o o' Hin Hp.
        assert (flagged o') as Ho'.
        { apply in_combine_r in Hin. revert o' Hin. apply Forall_forall. exact Hfl. }
        unfold flagged in Ho'. rewrite Ho'. apply Qle_bool_iff.
    + rewrite loop_idle_refs by assumption. auto.
  - intros e He. unfold step.
    destruct (commit_same (handle e W)) as (-> & -> & _).
    destruct e as [now' r1' r2'|x|key| |]; cbn [isFrame handle] in *;
      try discriminate.
    + unfold onPointerDown.
      destruct (Qlt_bool x (CANVAS_W / 2));
        match goal with |- context [if dead (refs ?X) then _ else _] =>
          destruct (dead (refs X)) end; cbn; auto.
    + unfold onKey.
      destruct (_ || _); [cbn; auto|].
      destruct (_ || _); [cbn; auto|].
      destruct (_ =? _)%string; [destruct (dead (refs W)); cbn; auto|].
      destruct (_ =? _)%string; cbn; auto.
    + cbn. auto.
    + cbn. auto.
Qed.

Lemma passed_once_witness :
  timesOk None (frames 91 1000 0 0 ++ [Frame 5550 0 0]) = true
  /\ (let W := run (initWorld None) (frames 91 1000 0 0) in
      let c := closureAt (live W) W in
      score (hooks (step W (Frame 5550 0 0))) =
        (score (hooks W)
         + transitions (obstacles (spawned c 5550 0 0 W))
             (fst (moved c 5550 0 0 W)))%Z).
Proof.
  assert (timesOk None (frames 91 1000 0 0 ++ [Frame 5550 0 0]) = true) as Ht
    by (vm_compute; reflexivity).
  split; [exact Ht|].
  pose proof (passed_once None (frames 91 1000 0 0) 5550 0 0 Ht) as H.
  cbv zeta in H. destruct H as [H _].
  assert (simulates
            (closureAt (live (run (initWorld None) (frames 91 1000 0 0)))
               (run (initWorld None) (frames 91 1000 0 0)))
            (run (initWorld None) (frames 91 1000 0 0)) = true) as Hs
    by (vm_compute; reflexivity).
  rewrite Hs in H. cbv zeta. apply H.
Defined.

(** ** Removal of obstacles (C6) *)

Lemma onScreen_spec (o : Obstacle) :
  onScreen o = true <-> y o < CANVAS_H + h o.
Proof.
  unfold onScreen, Qlt_bool. rewrite negb_true_iff. split.
  - intros H. apply Qnot_le_lt. intros Hle. apply Qle_bool_iff in Hle. congruence.
  - intros H. destruct (Qle_bool _ _) eqn:Hq; [|reflexivity].
    apply Qle_bool_iff in Hq. lra.
Qed.

(** C6, as the code has it.  On a frame that simulates, the obstacles
    kept are, in order, the moved obstacles with [y < CANVAS_H + h]: a
    moved obstacle is removed exactly when its top edge is at least its
    own height below the canvas's lower bound, [CANVAS_H + h <= y].  On
    a frame that does not simulate no obstacle is removed. *)
Theorem offscreen_removed (c : Closure) (now r1 r2 : Q) (W : World) :
  let W' := snd (loop c now r1 r2 W) in
  if simulates c W then
    let post := fst (moved c now r1 r2 W) in
    obstacles (refs W') = filter onScreen post
    /\ (forall o, In o post ->
          (In o (obstacles (refs W')) <-> y o < CANVAS_H + h o)
          /\ (~ In o (obstacles (refs W')) <-> CANVAS_H + h o <= y o))
  else obstacles (refs W') = obstacles (refs W).
Proof.
  cbv zeta. destruct (simulates c W) eqn:Hs.
  - rewrite loop_active_refs by assumption. cbn [obstacles].
    split; [reflexivity|]. intros o Ho.
    rewrite filter_In, onScreen_spec. split.
    + split; [intros [_ H]; exact H|intros H; split; assumption].
    + split.
      * intros Hn. apply Qnot_lt_le. intros Hlt. apply Hn. split; assumption.
      * intros Hle [_ Hlt]. lra.
  - rewrite loop_idle_refs by assumption. reflexivity.
Qed.

(** C6, as stated, fails.  After 106 frames the first obstacle, in lane
    0, has its top edge at 656.625, below the canvas's lower bound 640,
    so all of it is past the visible area; it was in the list before
    frame 106 and is still in the list after it. *)
Lemma offscreen_kept :
  let W := laneZeroRun 105 in
  let W' := step W (Frame 6250 0 0) in
  let o := {| lane := 0; y := 12961 # 20; w := 72; h := 26; passed := true |} in
  let o' := {| lane := 0; y := 5253 # 8; w := 72; h := 26; passed := true |} in
  nth_error (obstacles (refs W)) 0 = Some o
  /\ nth_error (obstacles (refs W')) 0 = Some o'
  /\ CANVAS_H < y o'
  /\ In o' (obstacles (refs W')).
Proof.
  cbv zeta.
  assert (nth_error
            (obstacles (refs (step (laneZeroRun 105) (Frame 6250 0 0)))) 0
          = Some {| lane := 0; y := 5253 # 8; w := 72; h := 26; passed := true |})
    as H' by (vm_compute; reflexivity).
  split; [vm_compute; reflexivity|].
  split; [exact H'|].
  split; [reflexivity|].
  eapply nth_error_In. exact H'.
Qed.

(** ** Frames that do not simulate (C5) *)

(** What [loop] does when the render it belongs to was paused, or the
    run has ended: the refs and the React state are left as they are,
    the frame is drawn with its overlay and the next frame is
    requested. *)
Lemma idle_frame (c : Closure) (now r1 r2 : Q) (W : World) :
  canvas W = true ->
  running (env c) = false \/ dead (refs W) = true ->
  let W' := snd (loop c now r1 r2 W) in
  refs W' = refs W /\ hooks W' = hooks W /\ storage W' = storage W
  /\ fst (loop c now r1 r2 W) = c
  /\ out W' =
       out W
       ++ [Draw {| pic_lane := playerLane (env c);
                   pic_obstacles := obstacles (refs W);
                   pic_score := score (env c);
                   pic_best := best (env c);
                   pic_overlay := if dead (refs W) then GameOver else Paused |};
           RequestFrame].
Proof.
  intros Hc Hi. cbv zeta.
  assert (simulates c W = false) as Hs.
  { unfold simulates. destruct Hi as [-> | ->];
      rewrite ?andb_false_r; reflexivity. }
  rewrite loop_idle by assumption. cbn [fst snd].
  repeat split.
  unfold draw, emit. cbn [out]. rewrite <- app_assoc. cbn [app].
  destruct (dead (refs W)) eqn:Hd; [reflexivity|].
  destruct Hi as [-> | Hi]; [reflexivity|congruence].
Qed.

(** C5 fails on the code for the pause.  The [loop] that the mount
    effect schedules (lines 105-111, with an empty dependency list) and
    that reschedules itself (lines 120, 178) is the first render's; its
    [running] is the constant [true] of that render (line 34).  After a
    first frame and the key [p], the running flag is false (the run is
    paused) and the run is not dead; the next frame, 50 ms later, still
    advances the elapsed time, the speed and the spawn timer, and draws
    no Paused overlay. *)
Theorem pause_not_honoured :
  let W := run (initWorld None) [Frame 1000 0 0; KeyDown "p"] in
  let W' := step W (Frame 1050 0 0) in
  running (hooks W) = false /\ dead (refs W) = false
  /\ elapsed (refs W) = 0 /\ elapsed (refs W') = 1 # 20
  /\ speed (refs W) = 140 /\ speed (refs W') = 1403 # 10
  /\ spawnTimer (refs W) = 0 /\ spawnTimer (refs W') = 1 # 20
  /\ List.last (out W') RequestFrame = RequestFrame
  /\ nth 1 (rev (out W')) RequestFrame =
       Draw {| pic_lane := 1; pic_obstacles := []; pic_score := 0;
               pic_best := Int 0; pic_overlay := NoOverlay |}.
Proof. vm_compute. repeat split; reflexivity. Qed.

(** ** Collision (C2) *)

Lemma overlap_spec (o : Obstacle) :
  overlap o = true <->
  y o <= PLAYER_Y + PLAYER_R /\ PLAYER_Y - PLAYER_R <= y o + h o.
Proof.
  unfold overlap, Qlt_bool. cbv zeta.
  rewrite negb_true_iff, orb_false_iff, !negb_false_iff, !Qle_bool_iff.
  reflexivity.
Qed.

(** What the collision check of one frame decides: the run is marked
    dead exactly when some obstacle kept after the removal has the lane
    index of the render the loop belongs to and its interval
    [[y, y + h]] meets [[PLAYER_Y - PLAYER_R, PLAYER_Y + PLAYER_R]]. *)
Lemma collision_iff (c : Closure) (now r1 r2 : Q) (W : World) :
  simulates c W = true ->
  let W' := snd (loop c now r1 r2 W) in
  dead (refs W') = true <->
  exists o, In o (obstacles (refs W'))
            /\ lane o = playerLane (env c)
            /\ y o <= PLAYER_Y + PLAYER_R
            /\ PLAYER_Y - PLAYER_R <= y o + h o.
Proof.
  intros Hs. cbv zeta. rewrite loop_active_refs by assumption.
  cbn [dead obstacles]. rewrite existsb_exists. unfold hits.
  split; intros (o & Hin & Ho); exists o; (split; [exact Hin|]).
  - apply andb_prop in Ho as [Hl Ho]. apply Z.eqb_eq in Hl.
    apply overlap_spec in Ho. tauto.
  - destruct Ho as (Hl & Ho). apply andb_true_intro. split.
    + apply Z.eqb_eq, Hl.
    + apply overlap_spec, Ho.
Qed.

(** C2 fails on the code: the lane compared is the first render's
    [playerLane], the constant 1, not the player's current lane.  After
    the key ArrowLeft the player's lane is 0; every obstacle spawns in
    lane 1; the 90th frame marks the run dead although no obstacle is
    in lane 0, the player's lane. *)
Theorem collision_in_other_lane :
  let W :=
    run (initWorld None) (KeyDown "ArrowLeft" :: frames 89 1000 (1 # 2) 0) in
  let W' := step W (Frame 5450 (1 # 2) 0) in
  playerLane (hooks W) = 0%Z /\ playerLane (hooks W') = 0%Z
  /\ dead (refs W) = false /\ dead (refs W') = true
  /\ forallb (fun o => (lane o =? 1)%Z) (obstacles (refs W')) = true
  /\ existsb (hits (playerLane (hooks W'))) (obstacles (refs W')) = false.
Proof. vm_compute. repeat split; reflexivity. Qed.

(** ** Best score (C1, C7) *)

Lemma writes_app (l l' : list Effect) : writes (l ++ l') = writes l ++ writes l'.
Proof.
  induction l as [|e l IH]; [reflexivity|].
  destruct e; cbn; rewrite IH; reflexivity.
Qed.

Lemma collide_best (c : Closure) (W : World) :
  if existsb (hits (playerLane (env c))) (obstacles (refs W))
  then best (hooks (collide c W)) = newBest c
       /\ storage (collide c W) = Some (String_of (newBest c))
       /\ out (collide c W) = out W ++ [SetItem BEST_KEY (String_of (newBest c))]
       /\ running (hooks (collide c W)) = false
  else collide c W = W.
Proof. unfold collide. destruct (existsb _ _); cbn; auto. Qed.

(** One frame and the best score: if the frame simulates and marks the
    run dead, the best score becomes [newBest], it is written to
    storage, and [running] is cleared; otherwise the best score and the
    storage are untouched and nothing is written. *)
Lemma loop_best (c : Closure) (now r1 r2 : Q) (W : World) :
  let W' := snd (loop c now r1 r2 W) in
  if simulates c W && dead (refs W')
  then best (hooks W') = newBest c
       /\ storage W' = Some (String_of (newBest c))
       /\ writes (out W') = writes (out W) ++ [String_of (newBest c)]
       /\ running (hooks W') = false
  else best (hooks W') = best (hooks W)
       /\ storage W' = storage W
       /\ writes (out W') = writes (out W).
Proof.
  cbv zeta. destruct (simulates c W) eqn:Hs; cbn [andb].
  - rewrite loop_active_refs by assumption. cbn [dead].
    rewrite loop_active by assumption. cbn [snd].
    autorewrite with world. unfold draw, emit. cbn [out].
    rewrite !writes_app. cbn [writes]. rewrite !app_nil_r.
    match goal with |- context [collide c ?X] =>
      pose proof (collide_best c X) as Hb; set (X' := X) in * end.
    change (obstacles (refs X')) with
      (filter onScreen (fst (moved c now r1 r2 W))) in Hb.
    destruct (existsb _ _).
    + destruct Hb as (-> & -> & -> & ->). rewrite writes_app. cbn. auto.
    + rewrite Hb. cbn. auto.
  - destruct (canvas W) eqn:Hc.
    + rewrite loop_idle by assumption. cbn [snd]. autorewrite with world.
      unfold draw, emit. cbn [out]. rewrite !writes_app. cbn.
      rewrite !app_nil_r. auto.
    + rewrite loop_no_canvas by assumption. auto.
Qed.




(** An entry that spells no integer gives NaN, which then stays. *)
Lemma unparseable_best :
  initBest (Some "abc"%string) = NaN
  /\ (forall z : Z, Math_max NaN z = NaN)
  /\ String_of NaN = "NaN"%string.
Proof. repeat split. Qed.

(** C1 fails on the code.  [Math.max (best, score)] at line 169 reads
    the [best] and the [score] of the render the scheduled [loop]
    belongs to, not the stored best and the run's score.

    First run below: one obstacle in lane 0 is passed (score 1), then
    one in lane 1 ends the run; the loop is the first render's, whose
    [score] is 0, so the best score stays 0 and ["0"] is written, with
    a final score of 1.

    Second run: at score 1 the Restart button is clicked, which
    schedules the [loop] of the render that saw score 1; the next run
    ends with score 0 and the best score becomes 1.  A tap on the dead
    screen restarts through the first render's [restart]; that run ends
    and the best score goes back from 1 to 0, in the state and in
    storage. *)
Theorem best_not_max_of_final_score :
  (let W := run (initWorld None) scoreThenCrash in
   dead (refs W) = true /\ score (hooks W) = 1%Z
   /\ best (hooks W) = Int 0 /\ storage W = Some "0"%string)
  /\ (let W1 := run (initWorld None) restartAtOne in
      let W2 := run W1 tapAndCrash in
      dead (refs W1) = true /\ score (hooks W1) = 0%Z
      /\ best (hooks W1) = Int 1 /\ storage W1 = Some "1"%string
      /\ dead (refs W2) = true /\ score (hooks W2) = 0%Z
      /\ best (hooks W2) = Int 0 /\ storage W2 = Some "0"%string).
Proof. vm_compute. repeat split; reflexivity. Qed.

(** * Further properties of the code *)

(** ** The stored best score: [String] then [parseInt] *)

Lemma digits_decimal (d : Decimal.uint) (a : Z) :
  digits 10 (NilEmpty.string_of_uint d) (Some a) = Some (decimalValue d a).
Proof.
  revert a.
  induction d; intros a; cbn [NilEmpty.string_of_uint digits decimalValue];
    [reflexivity|..]; cbn -[Z.mul Z.add decimalValue digits]; apply IHd.
Qed.

Lemma digits_decimal_start (d : Decimal.uint) :
  d <> Decimal.Nil ->
  digits 10 (NilEmpty.string_of_uint d) None = Some (decimalValue d 0).
Proof.
  destruct d; intros H; [congruence|..];
    cbn [NilEmpty.string_of_uint digits decimalValue];
    cbn -[Z.mul Z.add decimalValue digits]; apply digits_decimal.
Qed.

Lemma decimalValue_acc (d : Decimal.uint) (p : positive) :
  Z.pos (Pos.of_uint_acc d p) = decimalValue d (Z.pos p).
Proof.
  revert p. induction d; intros p; cbn [Pos.of_uint_acc decimalValue];
    [reflexivity|..]; rewrite IHd; f_equal; lia.
Qed.

Lemma decimalValue_of_uint (d : Decimal.uint) :
  Z.of_N (Pos.of_uint d) = decimalValue d 0.
Proof.
  induction d; cbn [Pos.of_uint decimalValue]; [reflexivity|exact IHd|..];
    cbn [Z.of_N]; rewrite decimalValue_acc; reflexivity.
Qed.

Lemma parseInt_numeral (d : Decimal.uint) :
  d <> Decimal.Nil ->
  parseInt (NilEmpty.string_of_uint d) = Int (decimalValue d 0)
  /\ parseInt (String "-" (NilEmpty.string_of_uint d)) = Int (- decimalValue d 0).
Proof.
  intros H.
  pose proof (digits_decimal_start d H) as Hd.
  destruct d as [|d|d|d|d|d|d|d|d|d|d]; [congruence|..];
    try (unfold parseInt; cbn [NilEmpty.string_of_uint trimStart] in *;
         cbn -[digits decimalValue Z.mul] in *; rewrite Hd; split; f_equal; lia).
  destruct d; unfold parseInt; cbn [NilEmpty.string_of_uint trimStart] in *;
    cbn -[digits decimalValue Z.mul] in *; rewrite Hd; split; f_equal; lia.
Qed.

Lemma numeral_nonempty (d : Decimal.uint) :
  d <> Decimal.Nil ->
  exists c s, NilEmpty.string_of_uint d = String c s
              /\ NilZero.string_of_uint d = String c s.
Proof. destruct d; intros H; [congruence|..]; cbn; eauto. Qed.

Lemma initBest_String_of (n : num) : initBest (Some (String_of n)) = n.
Proof.
  destruct n as [|z]; [reflexivity|].
  destruct z as [|p|p]; [reflexivity|..];
    cbn [String_of Z.to_int NilZero.string_of_int];
    pose proof (Unsigned.to_uint_nonnil p) as Hn;
    destruct (numeral_nonempty _ Hn) as (c & s & E1 & E2);
    destruct (parseInt_numeral _ Hn) as [Hp Hm];
    rewrite <- decimalValue_of_uint, Unsigned.of_to in Hp, Hm.
  - rewrite E2. cbn [initBest]. rewrite <- E1. exact Hp.
  - rewrite E2. cbn [initBest]. rewrite <- E1. exact Hm.
Qed.

(** What the game stores it reads back: for NaN and for every integer
    of either sign up to [Number.MAX_SAFE_INTEGER] in absolute value,
    [String n] is never empty and [initBest] applied to the stored
    [String n] is [n]. *)
Theorem best_round_trip (n : num) :
  safeNum n = true ->
  String_of n <> EmptyString /\ initBest (Some (String_of n)) = n.
Proof.
  intros _. split; [|apply initBest_String_of].
  destruct n as [|z]; [discriminate|].
  destruct z as [|p|p]; [discriminate| |discriminate].
  cbn [String_of Z.to_int NilZero.string_of_int].
  destruct (numeral_nonempty _ (Unsigned.to_uint_nonnil p)) as (c & s & _ & ->).
  discriminate.
Qed.

Lemma best_round_trip_witness :
  safeNum (Int 12345) = true
  /\ initBest (Some (String_of (Int 12345))) = Int 12345.
Proof.
  assert (safeNum (Int 12345) = true) as H by reflexivity.
  split; [exact H|].
  exact (proj2 (best_round_trip (Int 12345) H)).
Defined.

(** ** Invariants of the refs and the score over every run *)

Lemma handle_other_pair (e : Event) (W : World) :
  isFrame e = false ->
  (refs (handle e W) = refs W /\ score (hooks (handle e W)) = score (hooks W))
  \/ (refs (handle e W) = freshRefs /\ score (hooks (handle e W)) = 0%Z).
Proof.
  destruct e as [now r1 r2|x|key| |]; cbn [isFrame handle]; intros Hf;
    try discriminate.
  - unfold onPointerDown.
    destruct (Qlt_bool x (CANVAS_W / 2));
      match goal with |- context [if dead (refs ?X) then _ else _] =>
        destruct (dead (refs X)) end; cbn; auto.
  - unfold onKey.
    destruct (_ || _); [cbn; auto|].
    destruct (_ || _); [cbn; auto|].
    destruct (_ =? _)%string; [destruct (dead (refs W)); cbn; auto|].
    destruct (_ =? _)%string; cbn; auto.
  - cbn. auto.
  - cbn. auto.
Qed.

Section RunInvariant.

(** A property [P] of the refs and the score that [restart]
    establishes and every frame whose event satisfies [okE] keeps
    holds after every run of such events from mount. *)
Variable P : Refs -> Z -> Prop.
Variable okE : Event -> bool.

Hypothesis P_fresh : P freshRefs 0%Z.
Hypothesis P_frame :
  forall (c : Closure) (now r1 r2 : Q) (W : World),
    okE (Frame now r1 r2) = true ->
    P (refs W) (score (hooks W)) ->
    P (refs (snd (loop c now r1 r2 W)))
      (score (hooks (snd (loop c now r1 r2 W)))).

Lemma invariant_step (W : World) (e : Event) :
  okE e = true -> P (refs W) (score (hooks W)) ->
  P (refs (step W e)) (score (hooks (step W e))).
Proof.
  intros He HP. destruct (isFrame e) eqn:Hf.
  - destruct e as [now r1 r2|x|key| |]; try discriminate.
    destruct (step_frame_fields now r1 r2 W) as (-> & -> & _).
    apply P_frame; assumption.
  - unfold step. destruct (commit_same (handle e W)) as (-> & -> & _).
    destruct (handle_other_pair e W Hf) as [[-> ->] | [-> ->]]; assumption.
Qed.

Lemma invariant_run (es : list Event) (W : World) :
  forallb okE es = true -> P (refs W) (score (hooks W)) ->
  P (refs (run W es)) (score (hooks (run W es))).
Proof.
  revert W. induction es as [|e es IH]; intros W Hes HP; [exact HP|].
  cbn [forallb] in Hes. apply andb_prop in Hes as [He Hes].
  cbn [run fold_left]. apply IH; [exact Hes|].
  apply invariant_step; assumption.
Qed.

Lemma invariant_mount (v : option string) (es : list Event) :
  forallb okE es = true ->
  P (refs (run (initWorld v) es)) (score (hooks (run (initWorld v) es))).
Proof. intros Hes. apply invariant_run; [exact Hes|exact P_fresh]. Qed.

End RunInvariant.

Lemma forallb_any (es : list Event) : forallb (fun _ => true) es = true.
Proof. induction es; [reflexivity|assumption]. Qed.

(** After any events from mount, every obstacle in the list is one the
    filter of line 156 keeps: its top edge is less than its own height
    below the canvas's lower bound. *)
Theorem obstacles_on_screen (v : option string) (es : list Event) :
  Forall (fun o => y o < CANVAS_H + h o)
    (obstacles (refs (run (initWorld v) es))).
Proof.
  apply (invariant_mount
           (fun r _ => Forall (fun o => y o < CANVAS_H + h o) (obstacles r))
           (fun _ => true)); [constructor| |apply forallb_any].
  intros c now r1 r2 W _ HP. destruct (simulates c W) eqn:Hs.
  - rewrite loop_active_refs by assumption. cbn [obstacles].
    apply Forall_forall. intros o Ho. apply filter_In in Ho as [_ Ho].
    apply onScreen_spec, Ho.
  - rewrite loop_idle_refs by assumption. exact HP.
Qed.

Lemma updateObstacles_same (s dt : Q) (os : list Obstacle) :
  Forall2 (fun o o' => lane o' = lane o /\ w o' = w o /\ h o' = h o)
    os (fst (updateObstacles s dt os)).
Proof.
  induction os as [|o os IH]; [constructor|].
  cbn [updateObstacles]. destruct (updateObstacles s dt os) as [rest n].
  cbn [fst] in IH. destruct (negb (passed o) && _); cbn [fst];
    constructor; cbn; auto.
Qed.

Lemma updateObstacles_shaped (s dt : Q) (os : list Obstacle) :
  Forall shaped os -> Forall shaped (fst (updateObstacles s dt os)).
Proof.
  intros H. pose proof (updateObstacles_same s dt os) as H2.
  induction H2 as [|o o' os os' (El & Ew & Eh) _ IH]; [constructor|].
  inversion H as [|? ? Ho Hos]; subst.
  constructor; [|apply IH, Hos].
  unfold shaped in *. rewrite El, Ew, Eh. exact Ho.
Qed.

Lemma newObstacle_shaped (r1 r2 : Q) :
  0 <= r1 -> r1 < 1 -> 0 <= r2 -> r2 < 1 -> shaped (newObstacle r1 r2).
Proof.
  intros H0 H1 H2 H3. unfold shaped. split; [|split; [|split]].
  - pose proof (newObstacle_lane r1 r2 H0 H1). lia.
  - cbn [h newObstacle]. rewrite Qred_correct. lra.
  - cbn [h newObstacle]. rewrite Qred_correct. lra.
  - cbn [w newObstacle]. rewrite Qred_correct. reflexivity.
Qed.

Lemma drawsOk_frame (now r1 r2 : Q) :
  drawsOk (Frame now r1 r2) = true ->
  0 <= r1 /\ r1 < 1 /\ 0 <= r2 /\ r2 < 1.
Proof.
  cbn [drawsOk]. unfold Qlt_bool. intros H.
  apply andb_prop in H as [H H4]. apply andb_prop in H as [H H3].
  apply andb_prop in H as [H1 H2].
  apply Qle_bool_iff in H1, H3. apply negb_true_iff in H2, H4.
  repeat split; try assumption; apply Qnot_le_lt; intros Hle;
    apply Qle_bool_iff in Hle; congruence.
Qed.

(** When every frame's random numbers are in [0, 1), every obstacle in
    the list, after any events from mount, has a lane among 0, 1, 2, a
    height from 26 to 46 (both ends allowed) and the width 72. *)
Theorem obstacles_shaped (v : option string) (es : list Event) :
  forallb drawsOk es = true ->
  Forall shaped (obstacles (refs (run (initWorld v) es))).
Proof.
  apply (invariant_mount (fun r _ => Forall shaped (obstacles r)) drawsOk);
    [constructor|].
  intros c now r1 r2 W Hd HP. destruct (simulates c W) eqn:Hs.
  - rewrite loop_active_refs by assumption. cbn [obstacles].
    apply drawsOk_frame in Hd as (H0 & H1 & H2 & H3).
    apply Forall_forall. intros o Ho. apply filter_In in Ho as [Ho _].
    revert o Ho. apply Forall_forall. unfold moved.
    apply updateObstacles_shaped. unfold spawned, spawn.
    destruct (Qle_bool _ _); cbn [obstacles ramp spawnObstacle]; [|exact HP].
    apply Forall_app. split; [exact HP|].
    constructor; [apply newObstacle_shaped; assumption|constructor].
  - rewrite loop_idle_refs by assumption. exact HP.
Qed.

Lemma obstacles_shaped_witness :
  forallb drawsOk (frames 30 1000 (1 # 2) (1 # 2)) = true
  /\ Forall shaped
       (obstacles (refs (run (initWorld None) (frames 30 1000 (1 # 2) (1 # 2))))).
Proof.
  assert (forallb drawsOk (frames 30 1000 (1 # 2) (1 # 2)) = true) as H
    by (vm_compute; reflexivity).
  split; [exact H|].
  apply (obstacles_shaped None (frames 30 1000 (1 # 2) (1 # 2)) H).
Defined.

Lemma updateObstacles_count (s dt : Q) (os : list Obstacle) :
  (0 <= snd (updateObstacles s dt os) <= Z.of_nat (List.length os))%Z.
Proof.
  induction os as [|o os IH]; [cbn; lia|].
  cbn [updateObstacles]. destruct (updateObstacles s dt os) as [rest n].
  cbn [snd] in IH. cbn [List.length].
  destruct (negb (passed o) && _); cbn [snd]; lia.
Qed.

(** The score is never negative after any events from mount, and one
    frame never lowers it and raises it by at most the number of
    obstacles in play, the one it may spawn included. *)
Theorem score_bounds (v : option string) (es : list Event) (W : World)
    (now r1 r2 : Q) :
  (0 <= score (hooks (run (initWorld v) es)))%Z
  /\ (score (hooks W) <= score (hooks (step W (Frame now r1 r2)))
      <= score (hooks W) + Z.of_nat (List.length (obstacles (refs W))) + 1)%Z.
Proof.
  assert (forall (c : Closure) (now r1 r2 : Q) (W : World),
             (score (hooks W) <= score (hooks (snd (loop c now r1 r2 W)))
              <= score (hooks W) + Z.of_nat (List.length (obstacles (refs W))) + 1)%Z)
    as Hframe.
  { intros c n a b X. rewrite loop_score. destruct (simulates c X); [|lia].
    unfold moved.
    pose proof (updateObstacles_count (speed (spawned c n a b X))
                  (frameDelta (last c) n) (obstacles (spawned c n a b X))) as Hc.
    assert (List.length (obstacles (spawned c n a b X))
            <= List.length (obstacles (refs X)) + 1)%nat as Hl.
    { unfold spawned, spawn.
      destruct (Qle_bool _ _); cbn [obstacles ramp spawnObstacle];
        [rewrite length_app; cbn; lia|lia]. }
    lia. }
  split.
  - apply (invariant_mount (fun _ s => (0 <= s)%Z) (fun _ => true));
      [lia| |apply forallb_any].
    intros c n a b X _ HP. pose proof (Hframe c n a b X). lia.
  - destruct (step_frame_fields now r1 r2 W) as (-> & _). apply Hframe.
Qed.

(** ** The clamped frame time *)

Lemma frameDelta_first (now : Q) (a : Q) :
  (now - a) / 1000 == 0 -> Qred (Qmin (5 # 100) ((now - a) / 1000)) == 0.
Proof.
  intros E. rewrite Qred_correct, E. apply Q.min_r. lra.
Qed.

(** The time a frame advances the simulation by is at most 0.05 s,
    whatever the timestamps are; it is zero on the first frame of a
    [loop] (no [_last] yet) and when the stored [_last] is 0, which
    [_last || now] takes for missing.  So one frame adds at most 0.05 s
    to the elapsed time. *)
Theorem frame_time_capped (c : Closure) (now r1 r2 : Q) (W : World) :
  (forall l : option Q, frameDelta l now <= 5 # 100)
  /\ frameDelta None now == 0
  /\ frameDelta (Some 0) now == 0
  /\ elapsed (refs (snd (loop c now r1 r2 W))) <= elapsed (refs W) + (5 # 100).
Proof.
  assert (forall l : option Q, frameDelta l now <= 5 # 100) as Hcap.
  { intros l. unfold frameDelta. rewrite Qred_correct. apply Q.le_min_l. }
  assert ((now - now) / 1000 == 0) as E by (unfold Qdiv; ring).
  split; [exact Hcap|]. split; [|split].
  - unfold frameDelta. apply (frameDelta_first now now E).
  - unfold frameDelta. cbn [Qeq_bool]. apply (frameDelta_first now now E).
  - destruct (simulates c W) eqn:Hs.
    + rewrite loop_active_refs by assumption. cbn [elapsed].
      unfold spawned, spawn.
      destruct (Qle_bool _ _); cbn [elapsed ramp spawnObstacle];
        rewrite Qred_correct; pose proof (Hcap (last c)); lra.
    + rewrite loop_idle_refs by assumption. lra.
Qed.

(** ** Bounds of the refs under a monotone clock *)

Lemma Bounded_fresh : Bounded freshRefs.
Proof.
  constructor; cbn; [apply Qle_refl|apply Qle_refl|constructor].
Qed.

Lemma loop_Bounded (c : Closure) (now r1 r2 : Q) (t : option Q) (W : World) :
  notAfter (last c) t -> clockOk t now -> RefsOk (refs W) ->
  Bounded (refs W) -> Bounded (refs (snd (loop c now r1 r2 W))).
Proof.
  intros Hl Ht Hr [Hi Htm Hlow]. destruct (simulates c W) eqn:Hs;
    [|rewrite loop_idle_refs by assumption; constructor; assumption].
  rewrite loop_active_refs by assumption.
  destruct (spawned_ok c now r1 r2 t W Hl Ht Hr) as (Hrs & _ & _ & Hi' & Hm).
  destruct (frameDelta_range (last c) now t Hl Ht) as [Hdt _].
  constructor; cbn [spawnInterval spawnTimer obstacles].
  - lra.
  - unfold spawned, spawn.
    destruct (Qle_bool _ _); cbn [spawnTimer ramp spawnObstacle];
      [apply Qle_refl|rewrite Qred_correct; lra].
  - assert (Forall (fun o => 0 <= y o + h o) (obstacles (spawned c now r1 r2 W)))
      as Hpre.
    { unfold spawned, spawn.
      destruct (Qle_bool _ _); cbn [obstacles ramp spawnObstacle]; [|exact Hlow].
      apply Forall_app. split; [exact Hlow|].
      constructor; [|constructor].
      cbn [y h newObstacle]. rewrite (Qred_correct (- _)). lra. }
    destruct (updateObstacles_crossing _ _ _ Hm (ok_flags _ Hrs)) as (H2 & _ & _).
    fold (moved c now r1 r2 W) in H2.
    apply Forall_forall. intros o Ho. apply filter_In in Ho as [Ho _].
    revert o Ho. apply Forall_forall.
    induction H2 as [|o o' os os' Hc _ IH]; [constructor|].
    inversion Hpre as [|? ? Ho Hos]; subst.
    constructor; [|apply IH, Hos].
    destruct Hc as [_ _ Eh Hy _ _ _]. rewrite Eh. lra.
Qed.

Lemma Bounded_run (es : list Event) (t : option Q) (W : World) :
  Good t W -> Bounded (refs W) -> timesOk t es = true ->
  Bounded (refs (run W es)).
Proof.
  revert t W. induction es as [|e es IH]; intros t W HG HB Ht; [exact HB|].
  cbn [run fold_left]. change (fold_left step es ?X) with (run X es).
  destruct (isFrame e) eqn:Hf.
  - destruct e as [now r1 r2|x|key| |]; try discriminate.
    cbn [timesOk] in Ht. apply andb_prop in Ht as [Ht1 Ht2].
    assert (clockOk t now) as Hc
        by (destruct t as [t0|]; cbn; [apply Qle_bool_iff; exact Ht1|exact I]).
    apply (IH (Some now)); [| |exact Ht2].
    + unfold step. apply Good_commit. cbn [handle].
      apply (Good_frame t); assumption.
    + destruct (step_frame_fields now r1 r2 W) as (_ & -> & _).
      apply (loop_Bounded _ _ _ _ t); try assumption.
      * apply live_notAfter, HG.
      * apply HG.
  - assert (timesOk t es = true) as Ht' by (destruct e; try discriminate; exact Ht).
    apply (IH t); [| |exact Ht'].
    + unfold step. apply Good_commit, Good_other; assumption.
    + unfold step. destruct (commit_same (handle e W)) as (_ & -> & _).
      destruct (handle_other_pair e W Hf) as [[-> _] | [-> _]];
        [exact HB|apply Bounded_fresh].
Qed.

(** In a run from mount whose frame timestamps never go back, the
    elapsed time and the spawn timer are never negative, the speed is
    never below [BASE_SPEED], the spawn interval stays within
    [[MIN_SPAWN, BASE_SPAWN]], and no obstacle is above the position it
    was created at ([y >= - h]). *)
Theorem refs_bounds (v : option string) (es : list Event) :
  timesOk None es = true ->
  let r := refs (run (initWorld v) es) in
  0 <= elapsed r /\ 0 <= spawnTimer r /\ BASE_SPEED <= speed r
  /\ MIN_SPAWN <= spawnInterval r /\ spawnInterval r <= BASE_SPAWN
  /\ Forall (fun o => - h o <= y o) (obstacles r).
Proof.
  intros Ht. cbv zeta.
  pose proof (Good_run es None (initWorld v) (Good_init v) Ht) as HG.
  pose proof (Bounded_run es None (initWorld v) (Good_init v) Bounded_fresh Ht)
    as [Hi Htm Hlow].
  destruct (good_refs _ _ HG) as [He Hs Htg _].
  repeat split; try assumption.
  - rewrite Hs. unfold SPEED_GROWTH. lra.
  - eapply Qle_trans; [apply targetSpawn_min|exact Htg].
  - revert Hlow. apply Forall_impl. intros o Ho. lra.
Qed.

Lemma refs_bounds_witness :
  timesOk None (frames 40 1000 0 0) = true
  /\ BASE_SPEED <= speed (refs (run (initWorld None) (frames 40 1000 0 0))).
Proof.
  assert (timesOk None (frames 40 1000 0 0) = true) as H
    by (vm_compute; reflexivity).
  split; [exact H|].
  pose proof (refs_bounds None (frames 40 1000 0 0) H) as X.
  cbv zeta in X. exact (proj1 (proj2 (proj2 X))).
Defined.

(** In such a run, a frame that starts with the spawn timer below
    0.3 s spawns nothing: the timer gains at most 0.05 s and the
    interval is at least 0.35 s.  In particular the frame after a spawn
    (timer 0) never spawns. *)
Theorem no_spawn_below_interval (v : option string) (es : list Event)
    (now r1 r2 : Q) :
  timesOk None (es ++ [Frame now r1 r2]) = true ->
  let W := run (initWorld v) es in
  spawnTimer (refs W) < 3 # 10 ->
  obstacles (spawned (closureAt (live W) W) now r1 r2 W) = obstacles (refs W)
  /\ (List.length (obstacles (refs (step W (Frame now r1 r2))))
      <= List.length (obstacles (refs W)))%nat.
Proof.
  intros H. cbv zeta. intros Htm.
  destruct (Good_prefix v es _ H) as [HG Ht].
  apply clockOk_of_timesOk in Ht.
  set (W := run (initWorld v) es) in *.
  set (c := closureAt (live W) W).
  pose proof (live_notAfter _ W HG) as Hc. fold c in Hc.
  destruct (frameDelta_range (last c) now _ Hc Ht) as [Hdt Hcap].
  destruct (ramp_ok _ _ Hdt (good_refs _ _ HG)) as (Hr1 & _ & _ & _).
  assert (obstacles (spawned c now r1 r2 W) = obstacles (refs W)) as E.
  { unfold spawned, spawn.
    destruct (Qle_bool _ _) eqn:Hq; [|reflexivity].
    exfalso. apply Qle_bool_iff in Hq.
    pose proof (ok_interval _ Hr1) as Hi.
    pose proof (targetSpawn_min (elapsed (ramp (frameDelta (last c) now) (refs W))))
      as Hmin.
    assert (spawnTimer (ramp (frameDelta (last c) now) (refs W))
            == spawnTimer (refs W) + frameDelta (last c) now) as Et
        by (cbn [ramp spawnTimer]; apply Qred_correct).
    unfold MIN_SPAWN in Hmin. lra. }
  split; [exact E|].
  destruct (step_frame_fields now r1 r2 W) as (_ & -> & _). fold c.
  destruct (simulates c W) eqn:Hs.
  - rewrite loop_active_refs by assumption. cbn [obstacles].
    eapply Nat.le_trans; [apply filter_length_le|].
    unfold moved. rewrite updateObstacles_length, E. lia.
  - rewrite loop_idle_refs by assumption. lia.
Qed.

Lemma no_spawn_below_interval_witness :
  timesOk None (frames 3 1000 0 0 ++ [Frame 1150 0 0]) = true
  /\ spawnTimer (refs (run (initWorld None) (frames 3 1000 0 0))) < 3 # 10
  /\ (List.length
        (obstacles
           (refs (step (run (initWorld None) (frames 3 1000 0 0))
                    (Frame 1150 0 0))))
      <= List.length
           (obstacles (refs (run (initWorld None) (frames 3 1000 0 0)))))%nat.
Proof.
  assert (timesOk None (frames 3 1000 0 0 ++ [Frame 1150 0 0]) = true) as H
    by (vm_compute; reflexivity).
  assert (spawnTimer (refs (run (initWorld None) (frames 3 1000 0 0))) < 3 # 10)
    as Ht by (vm_compute; reflexivity).
  split; [exact H|]. split; [exact Ht|].
  apply (no_spawn_below_interval None (frames 3 1000 0 0) 1150 0 0 H Ht).
Defined.

(** ** Lanes on the canvas *)

Lemma laneX_value (l : Z) : laneX l == 120 * inject_Z l + 60.
Proof.
  unfold laneX. cbv zeta.
  assert (CANVAS_W / inject_Z LANES == 120) as -> by reflexivity.
  assert (120 / 2 == 60) as -> by reflexivity.
  reflexivity.
Qed.

(** [laneX l] is the centre of column [l] of three columns 120 px wide,
    and the rectangle [draw] fills for an obstacle of lane [l]
    (from [laneX l - w / 2], width [w], lines 207-212) lies strictly
    inside that column; for a lane among 0, 1, 2 it lies inside the
    canvas.  So do the 14 px of the player's marker on either side of
    [laneX]. *)
Theorem obstacle_inside_lane (l : Z) (r1 r2 : Q) :
  (0 <= l <= LANES - 1)%Z ->
  let o := newObstacle r1 r2 in
  let ox := laneX l - w o / 2 in
  120 * inject_Z l < ox /\ ox + w o < 120 * (inject_Z l + 1)
  /\ 0 < ox /\ ox + w o < CANVAS_W
  /\ 120 * inject_Z l < laneX l - PLAYER_R
  /\ laneX l + PLAYER_R < 120 * (inject_Z l + 1).
Proof.
  intros Hl. cbv zeta.
  assert (w (newObstacle r1 r2) == 72) as Ew
      by (cbn [w newObstacle]; rewrite Qred_correct; reflexivity).
  assert (w (newObstacle r1 r2) / 2 == 36) as Eh by (rewrite Ew; reflexivity).
  rewrite Eh, Ew, laneX_value. unfold CANVAS_W, PLAYER_R, LANES in *.
  assert (0 <= inject_Z l) as H0
      by (change 0 with (inject_Z 0); rewrite <- Zle_Qle; lia).
  assert (inject_Z l <= 2) as H2
      by (change 2 with (inject_Z 2); rewrite <- Zle_Qle; lia).
  repeat split; lra.
Qed.

Lemma obstacle_inside_lane_witness :
  (0 <= 2 <= LANES - 1)%Z
  /\ laneX 2 - w (newObstacle 0 0) / 2 + w (newObstacle 0 0) < CANVAS_W.
Proof.
  assert (0 <= 2 <= LANES - 1)%Z as H by (unfold LANES; lia).
  split; [exact H|].
  apply (obstacle_inside_lane 2 0 0 H).
Defined.

(** ** The input handlers *)

Lemma lowerAscii_idem (c : ascii) : lowerAscii (lowerAscii c) = lowerAscii c.
Proof. destruct c as [[] [] [] [] [] [] [] []]; reflexivity. Qed.

Lemma lowerAscii_not_A (c : ascii) : lowerAscii c <> "A"%char.
Proof. destruct c as [[] [] [] [] [] [] [] []]; discriminate. Qed.

Lemma toLowerCase_idem (s : string) : toLowerCase (toLowerCase s) = toLowerCase s.
Proof.
  induction s as [|c s IH]; [reflexivity|].
  cbn [toLowerCase]. rewrite lowerAscii_idem, IH. reflexivity.
Qed.

Lemma toLowerCase_not_arrow (s : string) :
  (toLowerCase s =? "ArrowLeft")%string = false
  /\ (toLowerCase s =? "ArrowRight")%string = false.
Proof.
  split; apply String.eqb_neq; destruct s as [|c s]; cbn [toLowerCase];
    try discriminate; intros E; injection E as E _;
    exact (lowerAscii_not_A c E).
Qed.

(** [onKey] does not tell upper case from lower case: any key other
    than the two arrow names acts as its lower-case form ([A] as [a],
    [D] as [d], [R] as [r], [P] as [p]). *)
Theorem onKey_case_insensitive (key : string) (W : World) :
  key <> "ArrowLeft"%string -> key <> "ArrowRight"%string ->
  onKey key W = onKey (toLowerCase key) W.
Proof.
  intros Hl Hr. unfold onKey. cbv zeta.
  rewrite toLowerCase_idem.
  destruct (toLowerCase_not_arrow key) as [-> ->].
  apply String.eqb_neq in Hl, Hr. rewrite Hl, Hr. reflexivity.
Qed.

Lemma onKey_case_insensitive_witness :
  "P"%string <> "ArrowLeft"%string /\ "P"%string <> "ArrowRight"%string
  /\ onKey "P" (initWorld None) = onKey (toLowerCase "P") (initWorld None).
Proof.
  assert ("P"%string <> "ArrowLeft"%string) as Hl by discriminate.
  assert ("P"%string <> "ArrowRight"%string) as Hr by discriminate.
  split; [exact Hl|]. split; [exact Hr|].
  apply (onKey_case_insensitive "P" (initWorld None) Hl Hr).
Defined.

Lemma step_hooks_refs (W : World) (e : Event) :
  hooks (step W e) = hooks (handle e W) /\ refs (step W e) = refs (handle e W)
  /\ live (step W e) = live (handle e W) /\ out (step W e) = out (handle e W)
  /\ storage (step W e) = storage (handle e W).
Proof.
  unfold step. destruct (commit_same (handle e W)) as (-> & -> & -> & -> & -> & _).
  auto.
Qed.

Lemma left_lane (W : World) :
  playerLane (hooks (step W (KeyDown "ArrowLeft"))) =
    clamp (playerLane (hooks W) - 1) 0 (LANES - 1)
  /\ playerLane (hooks (step W (KeyDown "a"))) =
       clamp (playerLane (hooks W) - 1) 0 (LANES - 1).
Proof.
  destruct (step_hooks_refs W (KeyDown "ArrowLeft")) as (-> & _).
  destruct (step_hooks_refs W (KeyDown "a")) as (-> & _).
  split; reflexivity.
Qed.

Lemma right_lane (W : World) :
  playerLane (hooks (step W (KeyDown "ArrowRight"))) =
    clamp (playerLane (hooks W) + 1) 0 (LANES - 1)
  /\ playerLane (hooks (step W (KeyDown "d"))) =
       clamp (playerLane (hooks W) + 1) 0 (LANES - 1).
Proof.
  destruct (step_hooks_refs W (KeyDown "ArrowRight")) as (-> & _).
  destruct (step_hooks_refs W (KeyDown "d")) as (-> & _).
  split; reflexivity.
Qed.

Lemma tap_lane (x : Q) (W : World) :
  playerLane (hooks (step W (PointerDown x))) =
    if Qlt_bool x (CANVAS_W / 2)
    then clamp (playerLane (hooks W) - 1) 0 (LANES - 1)
    else clamp (playerLane (hooks W) + 1) 0 (LANES - 1).
Proof.
  destruct (step_hooks_refs W (PointerDown x)) as (-> & _).
  cbn [handle]. unfold onPointerDown. cbv zeta.
  destruct (Qlt_bool x (CANVAS_W / 2));
    match goal with |- context [if dead (refs ?X) then _ else _] =>
      destruct (dead (refs X)) end; reflexivity.
Qed.

Lemma lane_range (v : option string) (es : list Event) :
  (0 <= playerLane (hooks (run (initWorld v) es)))%Z
  /\ (playerLane (hooks (run (initWorld v) es)) <= 2)%Z.
Proof.
  destruct (lanesOk_run es (initWorld v) (lanesOk_init v)) as [[H1 H2] _].
  unfold LANES in H2. split; lia.
Qed.

(** With three lanes, two moves to the same side always reach the
    outer lane: after any events from mount, two left inputs (keys or
    taps on the left half) leave the player in lane 0 and two right
    inputs in lane 2, and a further input to that side changes
    nothing. *)
Theorem two_moves_reach_the_edge (v : option string) (es : list Event)
    (x x' : Q) :
  let W := run (initWorld v) es in
  playerLane (hooks (run W [KeyDown "ArrowLeft"; KeyDown "a"])) = 0%Z
  /\ playerLane (hooks (run W [KeyDown "d"; KeyDown "ArrowRight"])) = 2%Z
  /\ playerLane
       (hooks (run W [KeyDown "a"; KeyDown "a"; KeyDown "ArrowLeft"])) = 0%Z
  /\ (x < CANVAS_W / 2 -> x' < CANVAS_W / 2 ->
      playerLane (hooks (run W [PointerDown x; PointerDown x'])) = 0%Z)
  /\ (CANVAS_W / 2 <= x -> CANVAS_W / 2 <= x' ->
      playerLane (hooks (run W [PointerDown x; PointerDown x'])) = 2%Z).
Proof.
  cbv zeta. destruct (lane_range v es) as [Hlo Hhi].
  set (W := run (initWorld v) es) in *.
  assert (forall a b, a < b -> Qlt_bool a b = true) as Hlt.
  { intros a b H. unfold Qlt_bool. apply negb_true_iff.
    destruct (Qle_bool b a) eqn:Hq; [|reflexivity].
    apply Qle_bool_iff in Hq. lra. }
  assert (forall a b, b <= a -> Qlt_bool a b = false) as Hge.
  { intros a b H. unfold Qlt_bool. apply negb_false_iff.
    apply Qle_bool_iff, H. }
  cbn [run fold_left].
  repeat split; intros;
    repeat first [ rewrite (proj1 (left_lane _)) | rewrite (proj2 (left_lane _))
                 | rewrite (proj1 (right_lane _)) | rewrite (proj2 (right_lane _))
                 | rewrite tap_lane ];
    rewrite ?Hlt, ?Hge by assumption;
    unfold clamp, LANES; lia.
Qed.

(** ** Ending and restarting a run *)

(** A tap on the canvas while the run is dead restarts it through the
    first render's [restart]: the refs are those of a fresh run, the
    score is zero, the running flag is set, the first render's [loop] is
    scheduled, and the lane has moved as for any tap, since both
    [pointerdown] listeners fire.  A tap while the run is alive only
    moves the lane. *)
Theorem tap_restarts_when_dead (x : Q) (W : World) :
  let W' := step W (PointerDown x) in
  (if dead (refs W)
   then refs W' = freshRefs /\ score (hooks W') = 0%Z
        /\ running (hooks W') = true /\ live W' = 0%nat
        /\ out W' = out W ++ [CancelFrame; RequestFrame]
   else refs W' = refs W /\ score (hooks W') = score (hooks W)
        /\ running (hooks W') = running (hooks W) /\ live W' = live W
        /\ out W' = out W)
  /\ playerLane (hooks W') =
       (if Qlt_bool x (CANVAS_W / 2)
        then clamp (playerLane (hooks W) - 1) 0 (LANES - 1)
        else clamp (playerLane (hooks W) + 1) 0 (LANES - 1))
  /\ best (hooks W') = best (hooks W) /\ storage W' = storage W.
Proof.
  cbv zeta. split; [|split; [apply tap_lane|]].
  - destruct (step_hooks_refs W (PointerDown x)) as (-> & -> & -> & -> & _).
    cbn [handle]. unfold onPointerDown. cbv zeta.
    destruct (Qlt_bool x (CANVAS_W / 2)); cbn [refs setPlayerLane];
      destruct (dead (refs W)); cbn; rewrite <- ?app_assoc; auto 6.
  - destruct (step_hooks_refs W (PointerDown x)) as (-> & _ & _ & _ & ->).
    cbn [handle]. unfold onPointerDown. cbv zeta.
    destruct (Qlt_bool x (CANVAS_W / 2)); cbn [refs setPlayerLane];
      destruct (dead (refs W)); cbn; auto.
Qed.

(** The key [r] (or [R]) restarts only a dead run: then it does what
    [restart] does and schedules the first render's [loop]; while the
    run is alive it changes neither the React state nor the refs and
    has no effect on the host. *)
Theorem key_r_restarts_only_when_dead (W : World) :
  step W (KeyDown "R") = step W (KeyDown "r")
  /\ (let W' := step W (KeyDown "r") in
      if dead (refs W)
      then refs W' = freshRefs /\ score (hooks W') = 0%Z
           /\ running (hooks W') = true /\ live W' = 0%nat
           /\ playerLane (hooks W') = playerLane (hooks W)
           /\ out W' = out W ++ [CancelFrame; RequestFrame]
      else refs W' = refs W /\ hooks W' = hooks W /\ live W' = live W
           /\ out W' = out W /\ storage W' = storage W).
Proof.
  split; [reflexivity|]. cbv zeta.
  destruct (step_hooks_refs W (KeyDown "r")) as (-> & -> & -> & -> & ->).
  cbn [handle]. change (onKey "r" W) with (if dead (refs W) then restart 0 W else W).
  destruct (dead (refs W)); cbn; rewrite <- ?app_assoc; auto 8.
Qed.

Lemma frames_keep_dead (es : list Event) (W : World) :
  dead (refs W) = true -> forallb isFrame es = true ->
  refs (run W es) = refs W /\ hooks (run W es) = hooks W
  /\ storage (run W es) = storage W.
Proof.
  revert W. induction es as [|e es IH]; intros W Hd Hes; [auto|].
  cbn [forallb] in Hes. apply andb_prop in Hes as [He Hes].
  destruct e as [now r1 r2|x|key| |]; try discriminate.
  cbn [run fold_left]. change (fold_left step es ?X) with (run X es).
  destruct (step_frame_fields now r1 r2 W) as (Eh & Er & Es & _).
  assert (simulates (closureAt (live W) W) W = false) as Hs
      by (unfold simulates; rewrite Hd, andb_false_r; reflexivity).
  assert (snd (loop (closureAt (live W) W) now r1 r2 W) =
          if canvas W then emit RequestFrame (draw (closureAt (live W) W) W)
          else W) as El.
  { destruct (canvas W) eqn:Hc.
    - rewrite loop_idle by assumption. reflexivity.
    - rewrite loop_no_canvas by assumption. reflexivity. }
  rewrite El in Eh, Er, Es.
  assert (refs (step W (Frame now r1 r2)) = refs W) as Er'
      by (rewrite Er; destruct (canvas W); reflexivity).
  assert (hooks (step W (Frame now r1 r2)) = hooks W) as Eh'
      by (rewrite Eh; destruct (canvas W); reflexivity).
  assert (storage (step W (Frame now r1 r2)) = storage W) as Es'
      by (rewrite Es; destruct (canvas W); reflexivity).
  destruct (IH (step W (Frame now r1 r2))) as (I1 & I2 & I3);
    [rewrite Er'; exact Hd|exact Hes|].
  rewrite I1, I2, I3. auto.
Qed.

(** Once the run is dead it stays as it is through any number of
    frames: the refs (obstacles, speed, timers, the dead flag), the
    React state and the stored entry do not change until an input
    restarts the run. *)
Theorem dead_run_is_frozen (es : list Event) (W : World) :
  dead (refs W) = true -> forallb isFrame es = true ->
  refs (run W es) = refs W /\ hooks (run W es) = hooks W
  /\ storage (run W es) = storage W /\ dead (refs (run W es)) = true.
Proof.
  intros Hd Hes. destruct (frames_keep_dead es W Hd Hes) as (E1 & E2 & E3).
  rewrite E1. auto.
Qed.

Lemma dead_run_is_frozen_witness :
  dead (refs (run (initWorld None) (frames 90 1000 (1 # 2) 0))) = true
  /\ forallb isFrame (frames 5 6000 0 0) = true
  /\ refs (run (run (initWorld None) (frames 90 1000 (1 # 2) 0))
             (frames 5 6000 0 0))
     = refs (run (initWorld None) (frames 90 1000 (1 # 2) 0)).
Proof.
  assert (dead (refs (run (initWorld None) (frames 90 1000 (1 # 2) 0))) = true)
    as Hd by (vm_compute; reflexivity).
  assert (forallb isFrame (frames 5 6000 0 0) = true) as Hf
    by (vm_compute; reflexivity).
  split; [exact Hd|]. split; [exact Hf|].
  exact (proj1 (dead_run_is_frozen (frames 5 6000 0 0)
                  (run (initWorld None) (frames 90 1000 (1 # 2) 0)) Hd Hf)).
Defined.

(** The frame in which the run ends clears the running flag and stores
    the best score it sets: when that best score is NaN or an integer
    up to [Number.MAX_SAFE_INTEGER] in absolute value, the entry
    written is the one the next mount reads back as that same best
    score. *)
Theorem death_stores_the_best (W : World) (now r1 r2 : Q) :
  let W' := step W (Frame now r1 r2) in
  dead (refs W) = false -> dead (refs W') = true ->
  safeNum (best (hooks W')) = true ->
  running (hooks W') = false
  /\ storage W' = Some (String_of (best (hooks W')))
  /\ initBest (storage W') = best (hooks W')
  /\ best (hooks (initWorld (storage W'))) = best (hooks W').
Proof.
  cbv zeta. intros Hd Hd' _.
  destruct (step_frame_fields now r1 r2 W) as (Eh & Er & Es & _).
  rewrite Er in Hd'. rewrite Eh, Es.
  set (c := closureAt (live W) W) in *.
  pose proof (loop_best c now r1 r2 W) as Hb. cbv zeta in Hb.
  destruct (simulates c W) eqn:Hs.
  - rewrite Hd' in Hb. cbn [andb] in Hb. destruct Hb as (-> & -> & _ & ->).
    cbn [initWorld hooks initRender best]. rewrite initBest_String_of. auto.
  - rewrite loop_idle_refs in Hd' by assumption. congruence.
Qed.

Lemma death_stores_the_best_witness :
  dead (refs (run (initWorld None) (frames 89 1000 (1 # 2) 0))) = false
  /\ dead (refs (step (run (initWorld None) (frames 89 1000 (1 # 2) 0))
                   (Frame 5450 (1 # 2) 0))) = true
  /\ safeNum (best (hooks (step (run (initWorld None) (frames 89 1000 (1 # 2) 0))
                             (Frame 5450 (1 # 2) 0)))) = true
  /\ initBest (storage (step (run (initWorld None) (frames 89 1000 (1 # 2) 0))
                          (Frame 5450 (1 # 2) 0)))
     = best (hooks (step (run (initWorld None) (frames 89 1000 (1 # 2) 0))
                      (Frame 5450 (1 # 2) 0))).
Proof.
  assert (dead (refs (run (initWorld None) (frames 89 1000 (1 # 2) 0))) = false)
    as Hd by (vm_compute; reflexivity).
  assert (dead (refs (step (run (initWorld None) (frames 89 1000 (1 # 2) 0))
                        (Frame 5450 (1 # 2) 0))) = true)
    as Hd' by (vm_compute; reflexivity).
  assert (safeNum (best (hooks (step (run (initWorld None)
                                        (frames 89 1000 (1 # 2) 0))
                                  (Frame 5450 (1 # 2) 0)))) = true)
    as Hsafe by (vm_compute; reflexivity).
  split; [exact Hd|]. split; [exact Hd'|]. split; [exact Hsafe|].
  pose proof (death_stores_the_best
                (run (initWorld None) (frames 89 1000 (1 # 2) 0))
                5450 (1 # 2) 0) as X.
  cbv zeta in X. exact (proj1 (proj2 (proj2 (X Hd Hd' Hsafe)))).
Defined.

(** ** What a frame sends to the host *)

(** Whenever the canvas exists, a call of [loop] ends with one [draw]
    followed by one [requestAnimationFrame]; before them it writes to
    storage at most once.  The picture shows the obstacle list and the
    dead flag as the frame leaves them, never a half-updated state: the
    Game Over overlay is drawn exactly when the run is dead after the
    frame, and it takes precedence over the Paused overlay. *)
Theorem frame_draws_then_reschedules (c : Closure) (now r1 r2 : Q) (W : World) :
  canvas W = true ->
  let W' := snd (loop c now r1 r2 W) in
  exists (mid : list Effect) (p : Picture),
    out W' = out W ++ mid ++ [Draw p; RequestFrame]
    /\ (mid = [] \/ exists s, mid = [SetItem BEST_KEY s])
    /\ pic_obstacles p = obstacles (refs W')
    /\ pic_lane p = playerLane (env c)
    /\ (pic_overlay p = GameOver <-> dead (refs W') = true)
    /\ (pic_overlay p = Paused <->
        dead (refs W') = false /\ running (env c) = false).
Proof.
  intros Hc. cbv zeta. destruct (simulates c W) eqn:Hs.
  - rewrite loop_active by assumption. cbn [snd].
    match goal with |- context [collide c ?X] => set (X0 := X) end.
    assert (out X0 = out W) as Eo by reflexivity.
    pose proof (collide_best c X0) as Hb.
    pose proof (collide_refs c X0) as Hr.
    unfold simulates in Hs. apply andb_prop in Hs as [Hs Hd].
    apply andb_prop in Hs as [_ Hrun]. apply negb_true_iff in Hd.
    assert (dead (refs X0) = false) as Hd0.
    { unfold X0. cbn [refs setRefs setObstacles dead].
      unfold spawned, spawn, ramp. destruct (Qle_bool _ _); cbn; exact Hd. }
    exists (if existsb (hits (playerLane (env c))) (obstacles (refs X0))
            then [SetItem BEST_KEY (String_of (newBest c))] else []).
    eexists. split; [|split; [|split; [|split; [|split]]]].
    + unfold emit at 1. cbn [out]. unfold draw, emit. cbn [out].
      destruct (existsb _ _).
      * destruct Hb as (_ & _ & -> & _). rewrite Eo, <- !app_assoc. reflexivity.
      * rewrite Hb, Eo, <- !app_assoc. reflexivity.
    + destruct (existsb _ _); eauto.
    + reflexivity.
    + reflexivity.
    + cbn [pic_overlay]. autorewrite with world.
      destruct (dead (refs (collide c X0))); [tauto|].
      rewrite Hrun. cbn. split; discriminate.
    + cbn [pic_overlay]. autorewrite with world.
      destruct (dead (refs (collide c X0))).
      * split; [discriminate|intros [? _]; discriminate].
      * rewrite Hrun. cbn. split; [discriminate|intros [_ ?]; discriminate].
  - rewrite loop_idle by assumption. cbn [snd].
    exists []. eexists. split; [|split; [|split; [|split; [|split]]]].
    + unfold emit at 1. cbn [out]. unfold draw, emit. cbn [out app].
      rewrite <- app_assoc. reflexivity.
    + left. reflexivity.
    + reflexivity.
    + reflexivity.
    + cbn [pic_overlay]. autorewrite with world.
      destruct (dead (refs W)); [tauto|].
      destruct (running (env c)); cbn; split; discriminate.
    + cbn [pic_overlay]. autorewrite with world.
      unfold simulates in Hs. rewrite Hc in Hs. cbn [andb] in Hs.
      destruct (dead (refs W)).
      * split; [discriminate|intros [? _]; discriminate].
      * destruct (running (env c)); [discriminate|]. cbn. tauto.
Qed.

Lemma frame_draws_then_reschedules_witness :
  canvas (initWorld None) = true
  /\ exists (mid : list Effect) (p : Picture),
       out (snd (loop {| env := initRender None; last := None |} 1000 0 0
                   (initWorld None)))
       = out (initWorld None) ++ mid ++ [Draw p; RequestFrame]
       /\ (mid = [] \/ exists s, mid = [SetItem BEST_KEY s])
       /\ pic_obstacles p =
            obstacles
              (refs (snd (loop {| env := initRender None; last := None |}
                            1000 0 0 (initWorld None))))
       /\ pic_lane p = playerLane (env {| env := initRender None; last := None |})
       /\ (pic_overlay p = GameOver <->
           dead (refs (snd (loop {| env := initRender None; last := None |}
                             1000 0 0 (initWorld None)))) = true)
       /\ (pic_overlay p = Paused <->
           dead (refs (snd (loop {| env := initRender None; last := None |}
                             1000 0 0 (initWorld None)))) = false
           /\ running (env {| env := initRender None; last := None |}) = false).
Proof.
  assert (canvas (initWorld None) = true) as H by reflexivity.
  split; [exact H|].
  apply (frame_draws_then_reschedules
           {| env := initRender None; last := None |} 1000 0 0 (initWorld None) H).
Defined.

(** ** Pausing *)

(** The key [p] and the Pause button do the same thing, which touches
    only the running flag: the lane, the score, the best score, the
    refs and the stored entry are as before, nothing is sent to the
    host, and a second toggle restores the flag. *)
Theorem pause_toggles_running_only (W : World) :
  step W (KeyDown "p") = step W ClickPause
  /\ step W (KeyDown "P") = step W ClickPause
  /\ (let W' := step W ClickPause in
      running (hooks W') = negb (running (hooks W))
      /\ playerLane (hooks W') = playerLane (hooks W)
      /\ score (hooks W') = score (hooks W)
      /\ best (hooks W') = best (hooks W)
      /\ refs W' = refs W /\ storage W' = storage W /\ out W' = out W
      /\ live W' = live W)
  /\ hooks (run W [ClickPause; KeyDown "p"]) = hooks W.
Proof.
  split; [reflexivity|]. split; [reflexivity|]. split.
  - cbv zeta.
    destruct (step_hooks_refs W ClickPause) as (-> & -> & -> & -> & ->).
    cbn. auto 10.
  - cbn [run fold_left].
    destruct (step_hooks_refs (step W ClickPause) (KeyDown "p")) as (-> & _).
    change (handle (KeyDown "p") ?X) with (setRunning negb X).
    cbn [hooks setRunning].
    destruct (step_hooks_refs W ClickPause) as (-> & _).
    cbn. rewrite negb_involutive. destruct (hooks W); reflexivity.
Qed.

(** ** The collision check of a frame *)

(** A frame that simulates marks the run dead exactly when, among the
    obstacles it keeps, one is in the lane of the render the loop
    belongs to with its top edge at or above 574 and its lower edge at
    or below 546 (the marker spans 560 - 14 to 560 + 14, both ends
    included); it then clears the running flag. *)
Theorem collision_ends_run (W : World) (now r1 r2 : Q) :
  let c := closureAt (live W) W in
  let W' := step W (Frame now r1 r2) in
  simulates c W = true ->
  (dead (refs W') = true <->
   exists o, In o (obstacles (refs W'))
             /\ lane o = playerLane (env c)
             /\ y o <= 574 /\ 546 <= y o + h o)
  /\ (dead (refs W') = true -> running (hooks W') = false).
Proof.
  cbv zeta. intros Hs.
  destruct (step_frame_fields now r1 r2 W) as (-> & -> & _).
  set (c := closureAt (live W) W) in *.
  pose proof (collision_iff c now r1 r2 W Hs) as Hc. cbv zeta in Hc.
  split.
  - rewrite Hc. unfold PLAYER_Y, PLAYER_R, CANVAS_H.
    split; intros (o & Hin & Hl & H1 & H2); exists o;
      (split; [exact Hin|split; [exact Hl|split; lra]]).
  - intros Hd. pose proof (loop_best c now r1 r2 W) as Hb. cbv zeta in Hb.
    rewrite Hs, Hd in Hb. apply Hb.
Qed.

Lemma collision_ends_run_witness :
  let W := run (initWorld None) (frames 89 1000 (1 # 2) 0) in
  let c := closureAt (live W) W in
  let W' := step W (Frame 5450 (1 # 2) 0) in
  simulates c W = true
  /\ dead (refs W) = false /\ dead (refs W') = true
  /\ (exists o, In o (obstacles (refs W'))
                /\ lane o = playerLane (env c)
                /\ y o <= 574 /\ 546 <= y o + h o)
  /\ running (hooks W') = false.
Proof.
  cbv zeta.
  assert (simulates
            (closureAt (live (run (initWorld None) (frames 89 1000 (1 # 2) 0)))
               (run (initWorld None) (frames 89 1000 (1 # 2) 0)))
            (run (initWorld None) (frames 89 1000 (1 # 2) 0)) = true) as Hs
    by (vm_compute; reflexivity).
  assert (dead (refs (run (initWorld None) (frames 89 1000 (1 # 2) 0))) = false)
    as Hd by (vm_compute; reflexivity).
  assert (dead (refs (step (run (initWorld None) (frames 89 1000 (1 # 2) 0))
                        (Frame 5450 (1 # 2) 0))) = true)
    as Hd' by (vm_compute; reflexivity).
  pose proof (collision_ends_run
                (run (initWorld None) (frames 89 1000 (1 # 2) 0))
                5450 (1 # 2) 0) as X.
  cbv zeta in X. destruct (X Hs) as [Hiff Hrun].
  split; [exact Hs|]. split; [exact Hd|]. split; [exact Hd'|].
  split; [exact (proj1 Hiff Hd')|exact (Hrun Hd')].
Defined.

(** ** Restart from the button while paused *)

Lemma renderEqb_eq (a b : Render) : renderEqb a b = true -> a = b.
Proof.
  unfold renderEqb. intros H.
  apply andb_prop in H as [H H4]. apply andb_prop in H as [H H3].
  apply andb_prop in H as [H1 H2].
  apply Bool.eqb_prop in H1. apply Z.eqb_eq in H2, H3.
  destruct a as [ra la sa ba], b as [rb lb sb bb]. cbn in *. subst.
  f_equal. destruct ba as [|x], bb as [|z]; cbn in H4; try discriminate;
    [reflexivity|apply Z.eqb_eq in H4; congruence].
Qed.

Lemma closureAt_last (W : World) :
  renders W <> [] ->
  nth_error (renders W) (currentRender W) = Some (closureAt (currentRender W) W).
Proof.
  intros Hn. unfold closureAt, currentRender.
  apply nth_error_nth'. destruct (renders W); [congruence|cbn; lia].
Qed.

Lemma commit_current (W : World) :
  renders W <> [] ->
  renders (commit W) <> []
  /\ env (closureAt (currentRender (commit W)) (commit W)) = hooks (commit W).
Proof.
  intros Hn. unfold commit.
  destruct (renderEqb _ _) eqn:E.
  - split; [exact Hn|apply renderEqb_eq, E].
  - split; [cbn [renders]; destruct (renders W); discriminate|].
    unfold closureAt, currentRender. cbn [renders hooks].
    rewrite length_app, Nat.add_comm. cbn [List.length Nat.add Nat.pred].
    rewrite app_nth2 by lia. rewrite Nat.sub_diag. reflexivity.
Qed.

Lemma setNth_length {A : Type} (i : nat) (a : A) (l : list A) :
  List.length (setNth i a l) = List.length l.
Proof.
  revert i. induction l as [|x l IH]; intros [|i]; cbn; auto.
Qed.

Lemma handle_renders_nonempty (e : Event) (W : World) :
  renders W <> [] -> renders (handle e W) <> [].
Proof.
  intros Hn. destruct (isFrame e) eqn:Hf.
  - destruct e as [now r1 r2|x|key| |]; try discriminate. cbn [handle].
    destruct (frame_fields now r1 r2 W) as (_ & _ & _ & _ & ->).
    intros E. apply (f_equal (@List.length _)) in E.
    rewrite setNth_length in E. destruct (renders W); [congruence|discriminate].
  - destruct (handle_other e W Hf) as (_ & -> & _). exact Hn.
Qed.

Lemma run_current (es : list Event) (W : World) :
  renders W <> [] ->
  env (closureAt (currentRender W) W) = hooks W ->
  renders (run W es) <> []
  /\ env (closureAt (currentRender (run W es)) (run W es)) = hooks (run W es).
Proof.
  revert W. induction es as [|e es IH]; intros W Hn Hc; [auto|].
  cbn [run fold_left]. change (fold_left step es ?X) with (run X es).
  destruct (commit_current (handle e W) (handle_renders_nonempty e W Hn)) as [H1 H2].
  apply IH; assumption.
Qed.

Lemma setNth_same {A : Type} (i : nat) (a : A) (l : list A) :
  nth_error l i = Some a -> setNth i a l = l.
Proof.
  revert i. induction l as [|x l IH]; intros [|i] H; cbn in *;
    try discriminate; [congruence|f_equal; auto].
Qed.

Lemma frozen_step (W : World) (e : Event) :
  notRestartClick e = true -> dead (refs W) = false -> frozen W ->
  frozen (step W e).
Proof.
  intros Hn Hd (Hr & c & Hc & Hrun).
  assert (forall X, refs X = refs W -> renders X = renders W -> live X = live W ->
                    frozen (commit X)) as Hcommit.
  { intros X Er Ers El. destruct (commit_same X) as (_ & Er' & _ & _ & El' & _ & Ers').
    split; [congruence|]. exists c. rewrite El', El. split; [|exact Hrun].
    destruct Ers' as [-> | ->]; rewrite Ers; [exact Hc|].
    rewrite nth_error_app1; [exact Hc|]. apply nth_error_Some. congruence. }
  unfold step. destruct e as [now r1 r2|x|key| |]; try discriminate; cbn [handle].
  - assert (closureAt (live W) W = c) as Ec
        by (unfold closureAt; apply nth_error_nth; exact Hc).
    assert (simulates c W = false) as Hs
        by (unfold simulates; rewrite Hrun, andb_false_r; reflexivity).
    destruct (frame_fields now r1 r2 W) as (_ & Er & _ & _ & Ers).
    rewrite Ec in Er, Ers.
    assert (fst (loop c now r1 r2 W) = c) as Ef.
    { destruct (canvas W) eqn:Hcv.
      - rewrite loop_idle by assumption. reflexivity.
      - rewrite loop_no_canvas by assumption. reflexivity. }
    apply Hcommit.
    + rewrite Er. apply loop_idle_refs, Hs.
    + rewrite Ers, Ef. apply setNth_same, Hc.
    + unfold frame. rewrite Ec.
      pose proof (loop_frame_of_world c now r1 r2 W) as Hw.
      destruct (loop c now r1 r2 W) as [c' W']. cbn [snd] in Hw.
      cbn [live]. apply Hw.
  - unfold onPointerDown. cbv zeta.
    destruct (Qlt_bool x (CANVAS_W / 2)); cbn [refs setPlayerLane];
      rewrite Hd; apply Hcommit; reflexivity.
  - unfold onKey. cbv zeta.
    destruct (_ || _); [apply Hcommit; reflexivity|].
    destruct (_ || _); [apply Hcommit; reflexivity|].
    destruct (_ =? _)%string; [rewrite Hd; apply Hcommit; reflexivity|].
    destruct (_ =? _)%string; apply Hcommit; reflexivity.
  - apply Hcommit; reflexivity.
Qed.

Lemma frozen_run (es : list Event) (W : World) :
  forallb notRestartClick es = true -> frozen W -> frozen (run W es).
Proof.
  revert W. induction es as [|e es IH]; intros W Hes HF; [exact HF|].
  cbn [forallb] in Hes. apply andb_prop in Hes as [He Hes].
  cbn [run fold_left]. apply IH; [exact Hes|].
  apply frozen_step; [exact He| |exact HF].
  destruct HF as [-> _]. reflexivity.
Qed.

(** A click on Restart while the running flag is clear (the game is
    paused, or a run has just ended) schedules the [loop] of a render
    that saw [running = false].  The click sets the running flag, yet
    from then on no frame simulates: whatever frames, keys, taps and
    Pause clicks follow, the refs stay those of a fresh run (no
    obstacle, elapsed time 0), until Restart is clicked again. *)
Theorem restart_while_paused_freezes (v : option string) (es0 es : list Event) :
  let W := run (initWorld v) es0 in
  running (hooks W) = false ->
  forallb notRestartClick es = true ->
  running (hooks (step W ClickRestart)) = true
  /\ refs (run (step W ClickRestart) es) = freshRefs
  /\ obstacles (refs (run (step W ClickRestart) es)) = []
  /\ elapsed (refs (run (step W ClickRestart) es)) = 0.
Proof.
  cbv zeta. intros Hrun Hes.
  set (W := run (initWorld v) es0) in *.
  destruct (run_current es0 (initWorld v)) as [Hn Hc];
    [discriminate|reflexivity|]. fold W in Hn, Hc.
  assert (frozen (step W ClickRestart)) as HF.
  { unfold step. cbn [handle].
    destruct (commit_same (restart (currentRender W) W))
      as (_ & Er & _ & _ & El & _ & Ers).
    split; [rewrite Er; reflexivity|].
    exists (closureAt (currentRender W) W). rewrite El. cbn [live restart].
    split; [|rewrite Hc; exact Hrun].
    pose proof (closureAt_last W Hn) as Hl.
    change (renders (restart (currentRender W) W)) with (renders W) in Ers.
    destruct Ers as [-> | ->]; [exact Hl|].
    rewrite nth_error_app1; [exact Hl|]. apply nth_error_Some. congruence. }
  split.
  - destruct (step_hooks_refs W ClickRestart) as (-> & _). reflexivity.
  - destruct (frozen_run es _ Hes HF) as [-> _]. repeat split.
Qed.

Lemma restart_while_paused_freezes_witness :
  running (hooks (run (initWorld None) [ClickPause])) = false
  /\ forallb notRestartClick (KeyDown "p" :: frames 30 1000 0 0) = true
  /\ refs (run (step (run (initWorld None) [ClickPause]) ClickRestart)
             (KeyDown "p" :: frames 30 1000 0 0)) = freshRefs.
Proof.
  assert (running (hooks (run (initWorld None) [ClickPause])) = false) as Hr
    by reflexivity.
  assert (forallb notRestartClick (KeyDown "p" :: frames 30 1000 0 0) = true)
    as Hes by (vm_compute; reflexivity).
  split; [exact Hr|]. split; [exact Hes|].
  pose proof (restart_while_paused_freezes None [ClickPause]
                (KeyDown "p" :: frames 30 1000 0 0)) as X.
  cbv zeta in X. exact (proj1 (proj2 (X Hr Hes))).
Defined.
